(** * Wishlist scraper: CSV export, link clean-up and control flow

    A shallow embedding of [src/fuck_amazon.ts].  JavaScript strings are
    represented by [string], read as the UTF-8 encoding of the text, so
    that every ASCII character the script looks for (comma, double quote,
    newline, the characters of a prefix) is one byte that never occurs
    inside the encoding of another character. *)

From Stdlib Require Import Bool List Arith Lia ZArith NArith.
From Stdlib Require Import Ascii String DecimalString.
Import ListNotations.

Local Open Scope string_scope.
Local Open Scope list_scope.

(** ** JavaScript string primitives used by the script *)

Module JsString.

Definition dquote : ascii := "034"%char.
Definition newline : ascii := "010"%char.
Definition comma : ascii := ","%char.

Definition str1 (c : ascii) : string := String c EmptyString.

(** [s.startsWith(p)] *)
Fixpoint startsWith (p s : string) : bool :=
  match p with
  | EmptyString => true
  | String a p' =>
      match s with
      | EmptyString => false
      | String b s' => Ascii.eqb a b && startsWith p' s'
      end
  end.

(** [s.includes(needle)] *)
Fixpoint includes (needle s : string) : bool :=
  startsWith needle s ||
  match s with
  | EmptyString => false
  | String _ s' => includes needle s'
  end.

(** [s.replace(/c/g, by)] for a one-character pattern [c]. *)
Fixpoint replaceAll (c : ascii) (by_ : string) (s : string) : string :=
  match s with
  | EmptyString => EmptyString
  | String a s' =>
      if Ascii.eqb a c then by_ ++ replaceAll c by_ s'
      else String a (replaceAll c by_ s')
  end.

(** [arr.join(sep)] *)
Definition join (sep : string) (l : list string) : string := String.concat sep l.

(** [s.split(c)] for a one-character separator: the pieces between the
    separators, at least one piece. *)
Fixpoint split (c : ascii) (s : string) : list string :=
  match s with
  | EmptyString => [EmptyString]
  | String a s' =>
      if Ascii.eqb a c then EmptyString :: split c s'
      else match split c s' with
           | p :: ps => String a p :: ps
           | [] => [str1 a]
           end
  end.

(** Truthiness of a string: non-empty. *)
Definition truthy (s : string) : bool :=
  match s with EmptyString => false | String _ _ => true end.

(** Template literal [`${n}`] for a non-negative integer. *)
Definition decimal (n : nat) : string := NilEmpty.string_of_uint (Nat.to_uint n).

(** One-byte white space: TAB, LF, VT, FF, CR and SPACE. *)
Definition ws1 (a : ascii) : bool :=
  let x := N_of_ascii a in
  ((9 <=? x) && (x <=? 13) || (x =? 32))%N.

(** Two-byte white space: U+00A0. *)
Definition ws2 (a b : ascii) : bool :=
  ((N_of_ascii a =? 194) && (N_of_ascii b =? 160))%N.

(** Three-byte white space: U+1680, U+2000..U+200A, U+2028, U+2029,
    U+202F, U+205F, U+3000 and U+FEFF. *)
Definition ws3 (a b c : ascii) : bool :=
  let x := N_of_ascii a in
  let y := N_of_ascii b in
  let z := N_of_ascii c in
  ((x =? 225) && (y =? 154) && (z =? 128)
   || (x =? 226) && (y =? 128)
      && ((128 <=? z) && (z <=? 138) || (z =? 168) || (z =? 169) || (z =? 175))
   || (x =? 226) && (y =? 129) && (z =? 159)
   || (x =? 227) && (y =? 128) && (z =? 128)
   || (x =? 239) && (y =? 187) && (z =? 191))%N.

(** Drops one white-space character from the front of [s]; with
    [backwards] the string is read from its end, so the bytes of a
    character come in the opposite order. *)
Definition dropSpace (backwards : bool) (s : string) : option string :=
  match s with
  | EmptyString => None
  | String a r1 =>
      if ws1 a then Some r1
      else
        match r1 with
        | EmptyString => None
        | String b r2 =>
            if (if backwards then ws2 b a else ws2 a b) then Some r2
            else
              match r2 with
              | EmptyString => None
              | String c r3 =>
                  if (if backwards then ws3 c b a else ws3 a b c)
                  then Some r3 else None
              end
        end
  end.

Fixpoint dropSpaces (fuel : nat) (backwards : bool) (s : string) : string :=
  match fuel with
  | O => s
  | S fuel' =>
      match dropSpace backwards s with
      | Some r => dropSpaces fuel' backwards r
      | None => s
      end
  end.

Fixpoint rev (s : string) : string :=
  match s with
  | EmptyString => EmptyString
  | String a s' => rev s' ++ str1 a
  end.

Definition trimStart (s : string) : string := dropSpaces (length s) false s.
Definition trimEnd (s : string) : string :=
  rev (dropSpaces (length s) true (rev s)).

(** [s.trim()] *)
Definition trim (s : string) : string := trimEnd (trimStart s).

End JsString.
Import JsString.

(** ** Data model *)

(** [interface WishlistItem] *)
Record WishlistItem := mkItem {
  itemName : string;
  manufacturer : string;
  options : list string;
  productLink : string;
  nonAmazonLink : string
}.

(** ** CSV encoder *)

(** [escapeCSV] *)
Definition escapeCSV (field : string) : string :=
  if includes (str1 dquote) field || includes "," field
     || includes (str1 newline) field
  then
    let field' := replaceAll dquote (String dquote (str1 dquote)) field in
    String dquote (field' ++ str1 dquote)
  else field.

(** [items.reduce((max, item) => Math.max(max, item.options.length), 0)] *)
Definition maxOptions (items : list WishlistItem) : nat :=
  fold_left (fun m it => Nat.max m (List.length (options it))) items 0.

(** The header built by the loop [for (let i = 1; i <= maxOptions; i++)]. *)
Definition headerColumns (n : nat) : list string :=
  ["Item Name"; "Manufacturer"; "Product Link"; "Non-Amazon Link"]
  ++ map (fun i => ("Option " ++ decimal i)%string) (seq 1 n).

(** [item.options[i] || ""] *)
Definition optionAt (opts : list string) (i : nat) : string :=
  match nth_error opts i with
  | Some o => if truthy o then o else EmptyString
  | None => EmptyString
  end.

(** The array [row] of one item. *)
Definition csvRow (n : nat) (it : WishlistItem) : list string :=
  [escapeCSV (itemName it); escapeCSV (manufacturer it);
   escapeCSV (productLink it); escapeCSV (nonAmazonLink it)]
  ++ map (fun i => escapeCSV (optionAt (options it) i)) (seq 0 n).

(** [csvRows] and [csvData]. *)
Definition csvRows (items : list WishlistItem) : list string :=
  let n := maxOptions items in
  join "," (map escapeCSV (headerColumns n))
  :: map (fun it => join "," (csvRow n it)) items.

Definition csvData (items : list WishlistItem) : string :=
  join (str1 newline) (csvRows items).

(** ** The URL interface of the platform

    [new URL(href, base)], [url.searchParams] and [url.toString()] belong
    to the runtime, not to the script.  A URL record keeps what the URL
    standard's serializer writes before the query as one string; the query
    and the fragment are nullable strings.  The query side
    ([application/x-www-form-urlencoded] parsing and serializing, the
    [delete] and [set] methods with their update steps) is written out; the
    URL parser itself is a parameter of the development. *)

Module Url.

Record URL := mkURL {
  beforeQuery : string;        (* scheme, credentials, host, port and path *)
  query : option string;
  fragment : option string
}.

(** The URL serializer, [url.toString()] and [url.href]. *)
Definition href (u : URL) : string :=
  (beforeQuery u
   ++ match query u with Some q => String "?" q | None => EmptyString end
   ++ match fragment u with Some f => String "#" f | None => EmptyString end)%string.

Definition byte (a : ascii) : N := N_of_ascii a.

Definition between (lo hi : N) (a : ascii) : bool :=
  ((lo <=? byte a) && (byte a <=? hi))%N.

Definition isAlnum (a : ascii) : bool :=
  between 48 57 a || between 65 90 a || between 97 122 a.

(** Upper-case hexadecimal digit of a value below 16. *)
Definition hexDigit (n : N) : ascii :=
  if (n <? 10)%N then ascii_of_N (48 + n) else ascii_of_N (55 + n).

Definition hexValue (a : ascii) : option N :=
  if between 48 57 a then Some (byte a - 48)%N
  else if between 65 70 a then Some (byte a - 55)%N
  else if between 97 102 a then Some (byte a - 87)%N
  else None.

Definition percentEncodeByte (a : ascii) : string :=
  String "%" (String (hexDigit (byte a / 16)) (str1 (hexDigit (byte a mod 16)))).

(** Bytes the urlencoded serializer leaves as they are: ASCII
    alphanumerics and [*], [-], [.], [_]. *)
Definition formSafe (a : ascii) : bool :=
  isAlnum a || Ascii.eqb a "*" || Ascii.eqb a "-" || Ascii.eqb a "."
  || Ascii.eqb a "_".

Definition formEncodeByte (a : ascii) : string :=
  if Ascii.eqb a " " then "+"
  else if formSafe a then str1 a
  else percentEncodeByte a.

Fixpoint formEncode (s : string) : string :=
  match s with
  | EmptyString => EmptyString
  | String a s' => (formEncodeByte a ++ formEncode s')%string
  end.

(** The urlencoded serializer of a list of name-value tuples. *)
Definition serializeParams (l : list (string * string)) : string :=
  join "&" (map (fun p => (formEncode (fst p) ++ String "=" (formEncode (snd p)))%string) l).

(** Percent-decoding: a [%] that two hexadecimal digits do not follow
    stays as it is. *)
Fixpoint percentDecode (s : string) : string :=
  match s with
  | EmptyString => EmptyString
  | String a r =>
      let keep := String a (percentDecode r) in
      if Ascii.eqb a "%" then
        match r with
        | String h (String l r') =>
            match hexValue h, hexValue l with
            | Some x, Some y => String (ascii_of_N (16 * x + y)) (percentDecode r')
            | _, _ => keep
            end
        | _ => keep
        end
      else keep
  end.

Definition replacement : string :=
  String (ascii_of_N 239) (String (ascii_of_N 191) (str1 (ascii_of_N 189))).

(** Range of the second byte of a three-byte sequence led by [a]. *)
Definition second3 (a b : ascii) : bool :=
  if (byte a =? 224)%N then between 160 191 b
  else if (byte a =? 237)%N then between 128 159 b
  else between 128 191 b.

(** Range of the second byte of a four-byte sequence led by [a]. *)
Definition second4 (a b : ascii) : bool :=
  if (byte a =? 240)%N then between 144 191 b
  else if (byte a =? 244)%N then between 128 143 b
  else between 128 191 b.

Definition cont (b : ascii) : bool := between 128 191 b.

(** UTF-8 decoding with replacement followed by UTF-8 encoding, on bytes:
    well-formed sequences are kept, every ill-formed one becomes U+FFFD and
    decoding resumes at the byte that broke the sequence. *)
Fixpoint utf8Text (s : string) : string :=
  match s with
  | EmptyString => EmptyString
  | String a r1 =>
      let bad := (replacement ++ utf8Text r1)%string in
      if between 0 127 a then String a (utf8Text r1)
      else if between 194 223 a then
        match r1 with
        | EmptyString => replacement
        | String b r2 =>
            if cont b then String a (String b (utf8Text r2)) else bad
        end
      else if between 224 239 a then
        match r1 with
        | EmptyString => replacement
        | String b r2 =>
            if second3 a b then
              match r2 with
              | EmptyString => replacement
              | String c r3 =>
                  if cont c then String a (String b (String c (utf8Text r3)))
                  else (replacement ++ utf8Text r2)%string
              end
            else bad
        end
      else if between 240 244 a then
        match r1 with
        | EmptyString => replacement
        | String b r2 =>
            if second4 a b then
              match r2 with
              | EmptyString => replacement
              | String c r3 =>
                  if cont c then
                    match r3 with
                    | EmptyString => replacement
                    | String d r4 =>
                        if cont d
                        then String a (String b (String c (String d (utf8Text r4))))
                        else (replacement ++ utf8Text r3)%string
                    end
                  else (replacement ++ utf8Text r2)%string
              end
            else bad
        end
      else bad
  end.

(** Splits at the first occurrence of [c]; [None] when there is none. *)
Fixpoint splitFirst (c : ascii) (s : string) : option (string * string) :=
  match s with
  | EmptyString => None
  | String a s' =>
      if Ascii.eqb a c then Some (EmptyString, s')
      else match splitFirst c s' with
           | Some (l, r) => Some (String a l, r)
           | None => None
           end
  end.

Definition formDecode (s : string) : string :=
  utf8Text (percentDecode (replaceAll "+" " " s)).

(** The urlencoded parser. *)
Definition parseParams (q : string) : list (string * string) :=
  flat_map
    (fun piece =>
       if truthy piece then
         match splitFirst "=" piece with
         | Some (n, v) => [(formDecode n, formDecode v)]
         | None => [(formDecode piece, EmptyString)]
         end
       else [])
    (split "&" q).

(** What the runtime supplies: the URL parser with the script's base,
    [new URL(href, "https://www.amazon.com")] ([None] when it throws), and
    what the update steps do to the text before the query when the query
    of a URL without fragment becomes null (the standard has had them
    strip the trailing spaces of an opaque path; runtimes differ). *)
Record Runtime := mkRuntime {
  parseURL : string -> option URL;
  tidyPath : string -> string
}.

(** A URL object: the URL record and the list of its [searchParams]. *)
Record URLObject := mkObject {
  url : URL;
  params : list (string * string)
}.

Definition newObject (u : URL) : URLObject :=
  mkObject u (match query u with Some q => parseParams q | None => [] end).

(** The list without the tuples named [name]. *)
Definition without (name : string) (l : list (string * string))
  : list (string * string) :=
  filter (fun p => negb (String.eqb (fst p) name)) l.

(** The list after [set]: the first tuple named [name] takes the value,
    the other ones go; without such a tuple, one is appended. *)
Fixpoint setFirst (name value : string) (l : list (string * string))
  : list (string * string) :=
  match l with
  | [] => [(name, value)]
  | p :: l' =>
      if String.eqb (fst p) name
      then (name, value) :: without name l'
      else p :: setFirst name value l'
  end.

Section SearchParams.

Variable rt : Runtime.

(** The update steps of [URLSearchParams], run by every [delete] and
    [set]: the query becomes the serialization of the list, null when that
    is empty. *)
Definition update (u : URL) (l : list (string * string)) : URLObject :=
  let s := serializeParams l in
  if truthy s then mkObject (mkURL (beforeQuery u) (Some s) (fragment u)) l
  else
    match fragment u with
    | Some _ => mkObject (mkURL (beforeQuery u) None (fragment u)) l
    | None => mkObject (mkURL (tidyPath rt (beforeQuery u)) None None) l
    end.

(** [searchParams.delete(name)] *)
Definition deleteParam (name : string) (o : URLObject) : URLObject :=
  update (url o) (without name (params o)).

(** [searchParams.set(name, value)] *)
Definition setParam (name value : string) (o : URLObject) : URLObject :=
  update (url o) (setFirst name value (params o)).

(** The clean-up of a product link (the [try] block of the catalog
    branch): the URL object just before [toString()]. *)
Definition cleanURL (u : URL) : URLObject :=
  setParam "th" "1" (deleteParam "ref_" (deleteParam "psc" (newObject u))).

(** The URL Normalizer: [None] when [new URL] throws. *)
Definition normalizeLink (h : string) : option string :=
  match parseURL rt h with
  | Some u => Some (href (url (cleanURL u)))
  | None => None
  end.

End SearchParams.

(** [searchParams.getAll(name)] *)
Definition getAll (name : string) (l : list (string * string)) : list string :=
  map snd (filter (fun p => String.eqb (fst p) name) l).

End Url.
Import Url.

(** ** [encodeURIComponent], [decodeURIComponent] and the regular
    expressions of the script *)

Module JsText.

(** Bytes [encodeURIComponent] leaves as they are. *)
Definition uriUnreserved (a : ascii) : bool :=
  isAlnum a
  || existsb (Ascii.eqb a) ["-"; "_"; "."; "!"; "~"; "*"; "'"; "("; ")"]%char.

Fixpoint encodeURIComponent (s : string) : string :=
  match s with
  | EmptyString => EmptyString
  | String a s' =>
      ((if uriUnreserved a then str1 a else percentEncodeByte a)
       ++ encodeURIComponent s')%string
  end.

(** Reads one escape [%XY] at the front of [s]. *)
Definition readEscape (s : string) : option (ascii * string) :=
  match s with
  | String p (String h (String l r)) =>
      if Ascii.eqb p "%" then
        match hexValue h, hexValue l with
        | Some x, Some y => Some (ascii_of_N (16 * x + y), r)
        | _, _ => None
        end
      else None
  | _ => None
  end.

Fixpoint readEscapes (n : nat) (s : string) : option (string * string) :=
  match n with
  | O => Some (EmptyString, s)
  | S n' =>
      match readEscape s with
      | Some (b, r) =>
          match readEscapes n' r with
          | Some (bs, r') => Some (String b bs, r')
          | None => None
          end
      | None => None
      end
  end.

(** Number of bytes of the sequence a leading byte announces; [None] for
    a byte that cannot lead a multi-byte sequence. *)
Definition announced (b : ascii) : option nat :=
  if between 192 223 b then Some 2
  else if between 224 239 b then Some 3
  else if between 240 247 b then Some 4
  else None.

(** [decodeURIComponent]; [None] when it throws [URIError]. *)
Fixpoint decodeAux (fuel : nat) (s : string) : option string :=
  match fuel with
  | O => match s with EmptyString => Some EmptyString | _ => None end
  | S fuel' =>
      match s with
      | EmptyString => Some EmptyString
      | String a r =>
          if Ascii.eqb a "%" then
            match readEscape s with
            | None => None
            | Some (b, r1) =>
                if between 0 127 b then option_map (String b) (decodeAux fuel' r1)
                else
                  match announced b with
                  | None => None
                  | Some n =>
                      match readEscapes (n - 1) r1 with
                      | None => None
                      | Some (bs, r2) =>
                          if String.eqb (utf8Text (String b bs)) (String b bs)
                          then option_map (String.append (String b bs))
                                          (decodeAux fuel' r2)
                          else None
                      end
                  end
            end
          else option_map (String a) (decodeAux fuel' r)
      end
  end.

Definition decodeURIComponent (s : string) : option string :=
  decodeAux (length s) s.

(** What follows the prefix [p] in [s], when [s] starts with it. *)
Fixpoint afterPrefix (p s : string) : option string :=
  match p with
  | EmptyString => Some s
  | String a p' =>
      match s with
      | EmptyString => None
      | String b s' => if Ascii.eqb a b then afterPrefix p' s' else None
      end
  end.

Fixpoint takeUntil (c : ascii) (s : string) : string :=
  match s with
  | EmptyString => EmptyString
  | String a s' => if Ascii.eqb a c then EmptyString else String a (takeUntil c s')
  end.

(** [href.match(/uddg=([^&]+)/)]: the first capture of the leftmost
    match. *)
Fixpoint matchUddg (s : string) : option string :=
  let here :=
    match afterPrefix "uddg=" s with
    | Some r => let cap := takeUntil "&" r in
                if truthy cap then Some cap else None
    | None => None
    end in
  match here with
  | Some cap => Some cap
  | None =>
      match s with
      | EmptyString => None
      | String _ s' => matchUddg s'
      end
  end.

Definition lower (a : ascii) : ascii :=
  if between 65 90 a then ascii_of_N (byte a + 32) else a.

(** [afterPrefix] ignoring the case of ASCII letters; [p] is in lower
    case. *)
Fixpoint afterPrefixCI (p s : string) : option string :=
  match p with
  | EmptyString => Some s
  | String a p' =>
      match s with
      | EmptyString => None
      | String b s' => if Ascii.eqb a (lower b) then afterPrefixCI p' s' else None
      end
  end.

(** Some white-space character occurs in [s] (the class [\s]). *)
Fixpoint hasSpace (s : string) : bool :=
  match dropSpace false s with
  | Some _ => true
  | None =>
      match s with
      | EmptyString => false
      | String _ s' => hasSpace s'
      end
  end.

(** [/^https?:\/\/[^\s]+$/i.test(text)] *)
Definition urlRegexTest (text : string) : bool :=
  let tail r := truthy r && negb (hasSpace r) in
  match afterPrefixCI "https://" text with
  | Some r => tail r
  | None =>
      match afterPrefixCI "http://" text with
      | Some r => tail r
      | None => false
      end
  end.

(** [name.replace(/[^a-zA-Z0-9]/g, "_")]: one underscore for each UTF-16
    code unit that is not an ASCII letter or digit, that is one for a
    character of up to three bytes and two for a character of four. *)
Fixpoint sanitizeName (s : string) : string :=
  match s with
  | EmptyString => EmptyString
  | String a s' =>
      if isAlnum a then String a (sanitizeName s')
      else if cont a then sanitizeName s'
      else if between 240 255 a then String "_" (String "_" (sanitizeName s'))
      else String "_" (sanitizeName s')
  end.

End JsText.
Import JsText.

(** ** What the browser page shows *)

(** A wishlist entry, [div[id*="itemInfo_"]], through the selectors the
    script queries inside it. *)
Record ItemElement := mkElement {
  nonAsin : bool;                  (* the NON_ASIN marker is found *)
  nameSpan : option string;        (* [innerText] of [span[id*="itemName_"]] *)
  nameAnchor : option (string * option string);
                                   (* [innerText] and [href] of [a[id*="itemName_"]] *)
  byline : option string;          (* [innerText] of the byline *)
  twisters : list string           (* [innerText] of every [span#twisterText] *)
}.

(** Outcome of waiting for the first organic search result. *)
Inductive SearchOutcome :=
| NoResult                          (* [waitForSelector] timed out *)
| Anchor (hrefAttr : option string).

(** One reading of the stabilizing loop. *)
Record Sample := mkSample {
  present : bool;      (* [page.$(endOfListSelector)] is not null *)
  visible : bool;      (* [endOfList.isVisible()] *)
  now : Z              (* [Date.now()] *)
}.

(** Everything the page answers while one wishlist URL is processed. *)
Record Visit := mkVisit {
  captchaPrompt : bool;        (* the prompt shows up within 5 s *)
  captchaContainer : bool;
  captchaAscii : bool;         (* [convertImageToAscii] resolves *)
  captchaInput : bool;
  captchaStillPresent : bool;  (* the prompt is there after submission *)
  listNameText : option string;
  endOfListSeen : nat -> bool; (* check after scroll number [scrollCount] *)
  stabilizeStart : Z;          (* first [Date.now()] of the second loop *)
  stabilizeSamples : nat -> Sample;
  itemElements : list ItemElement;
  searchResult : nat -> string -> SearchOutcome
}.

(** ** Scroll-completion detector *)

Inductive Completion := Complete | Incomplete.

Definition maxScrolls : nat := 30.

(** The first loop, [while (scrollCount < maxScrolls)]; [remaining] is
    [maxScrolls - scrollCount].  Returns [scrollCount] and
    [endOfListVisible]. *)
Fixpoint scrollLoop (seen : nat -> bool) (remaining scrollCount : nat)
  : nat * bool :=
  match remaining with
  | O => (scrollCount, false)
  | S remaining' =>
      if seen scrollCount then (scrollCount, true)
      else scrollLoop seen remaining' (S scrollCount)
  end.

(** Scroll actions issued by the first loop. *)
Definition scrollsIssued (r : nat * bool) : nat :=
  if snd r then S (fst r) else fst r.

(** The second loop, [while (continuousVisibleTime < 10000)].  Returns the
    number of readings made and the final accumulator, [None] when [fuel]
    iterations do not end the loop. *)
Fixpoint stabilize (fuel : nat) (samples : nat -> Sample) (k : nat)
  (continuousVisibleTime lastCheck : Z) : option (nat * Z) :=
  if (continuousVisibleTime <? 10000)%Z then
    match fuel with
    | O => None
    | S fuel' =>
        let s := samples k in
        if present s then
          let t := if visible s
                   then (continuousVisibleTime + (now s - lastCheck))%Z
                   else 0%Z in
          stabilize fuel' samples (S k) t (now s)
        else stabilize fuel' samples (S k) continuousVisibleTime lastCheck
    end
  else Some (k, continuousVisibleTime).

Record Detection := mkDetection {
  attempts : nat;          (* scroll actions issued *)
  scrollCount : nat;
  flag : Completion
}.

Definition detect (fuel : nat) (v : Visit) : option Detection :=
  let r := scrollLoop (endOfListSeen v) maxScrolls 0 in
  if snd r then
    match stabilize fuel (stabilizeSamples v) 0 0 (stabilizeStart v) with
    | Some _ => Some (mkDetection (scrollsIssued r) (fst r) Complete)
    | None => None
    end
  else Some (mkDetection (scrollsIssued r) (fst r) Incomplete).

(** ** Item extractor, link resolution fallback and the pipeline *)

Section Pipeline.

Variable rt : Runtime.

(** The fields read from one entry (the body of the loop over
    [itemElements] up to the retention test). *)
Definition scrapeItem (el : ItemElement) : WishlistItem :=
  if nonAsin el then
    match nameSpan el with
    | Some t =>
        let text := trim t in
        if urlRegexTest text
        then mkItem EmptyString EmptyString [] EmptyString text
        else mkItem text EmptyString [] EmptyString EmptyString
    | None => mkItem EmptyString EmptyString [] EmptyString EmptyString
    end
  else
    let name :=
      match nameAnchor el with
      | Some (t, _) => trim t
      | None => EmptyString
      end in
    let link :=
      match nameAnchor el with
      | Some (_, Some h) =>
          if truthy h then
            match normalizeLink rt h with
            | Some p => p
            | None => EmptyString
            end
          else EmptyString
      | _ => EmptyString
      end in
    let maker :=
      match byline el with
      | Some b => trim b
      | None => EmptyString
      end in
    mkItem name maker (filter truthy (map trim (twisters el))) link EmptyString.

(** [if (itemName || productLink || nonAmazonLink)] *)
Definition retained (it : WishlistItem) : bool :=
  truthy (itemName it) || truthy (productLink it) || truthy (nonAmazonLink it).

(** The array [items] after the extraction loop. *)
Definition scrapeItems (els : list ItemElement) : list WishlistItem :=
  filter retained (map scrapeItem els).

Definition withNonAmazonLink (it : WishlistItem) (l : string) : WishlistItem :=
  mkItem (itemName it) (manufacturer it) (options it) (productLink it) l.

(** The search address built for an item. *)
Definition duckUrl (it : WishlistItem) : string :=
  let optionsQuery := join " " (options it) in
  let searchQuery := trim (itemName it ++ String " " optionsQuery) in
  ("https://duckduckgo.com/?t=h_&q=official+site+"
   ++ encodeURIComponent searchQuery
   ++ "++-site%3Aamazon.*&t=h_&ia=web")%string.

(** One iteration of the fallback loop over [items]. *)
Definition resolveItem (answer : string -> SearchOutcome) (it : WishlistItem)
  : WishlistItem :=
  if truthy (nonAmazonLink it) then it
  else
    match answer (duckUrl it) with
    | NoResult => it
    | Anchor None => it
    | Anchor (Some h) =>
        if truthy h then
          match matchUddg h with
          | Some m =>
              match decodeURIComponent m with
              | Some decodedUrl => withNonAmazonLink it decodedUrl
              | None => it          (* [URIError], caught *)
              end
          | None => withNonAmazonLink it h
          end
        else it
    end.

(** The fallback loop; [i] is the position of the first item of [items]
    in the batch. *)
Fixpoint resolveLinks (search : nat -> string -> SearchOutcome) (i : nat)
  (items : list WishlistItem) : list WishlistItem :=
  match items with
  | [] => []
  | it :: rest => resolveItem (search i) it :: resolveLinks search (S i) rest
  end.

(** Addresses the fallback loop navigates to. *)
Definition searchesOf (items : list WishlistItem) : list string :=
  map duckUrl (filter (fun it => negb (truthy (nonAmazonLink it))) items).

(** The CAPTCHA step ends the process. *)
Definition captchaExits (v : Visit) : bool :=
  if captchaPrompt v then
    if captchaContainer v then
      if captchaAscii v then
        if captchaInput v then captchaStillPresent v else false
      else false
    else false
  else false.

(** [wishlistName] after the name step. *)
Definition wishlistName (v : Visit) : string :=
  match listNameText v with
  | Some t => sanitizeName (trim t)
  | None => "wishlist"
  end.

(** How the body of the loop over [wishlistUrls] ends. *)
Inductive Step :=
| Exits (code : nat)                          (* [process.exit(code)] *)
| Saved (file data : string) (searches : list string).

(** The body of the loop over [wishlistUrls] after [page.goto]. *)
Definition processWishlist (fuel : nat) (v : Visit) : option Step :=
  if captchaExits v then Some (Exits 1)
  else if String.eqb (wishlistName v) "wishlist" then Some (Exits 1)
  else
    match detect fuel v with
    | None => None
    | Some _ =>
        let items := scrapeItems (itemElements v) in
        let items' := resolveLinks (searchResult v) 0 items in
        Some (Saved (wishlistName v ++ ".csv") (csvData items') (searchesOf items))
    end.

(** [wishlistUrls] computed from the answer to the prompt. *)
Definition wishlistPrefix : string := "https://www.amazon.com/hz/wishlist/ls/".

Definition wishlistUrls (inputUrl : string) : list string :=
  if truthy (trim inputUrl)
  then filter (startsWith wishlistPrefix) (map trim (split "," inputUrl))
  else [].

(** A run of [main]: the addresses [page.goto] was called with, the files
    written (name and contents) and the exit code of the process. *)
Record Run := mkRun {
  visited : list string;
  written : list (string * string);
  exitCode : nat
}.

(** The loop over [wishlistUrls]; [i] counts the URLs already processed. *)
Fixpoint processAll (fuel : nat) (world : nat -> string -> Visit) (i : nat)
  (urls : list string) (seen : list string) (files : list (string * string))
  : option Run :=
  match urls with
  | [] => Some (mkRun seen files 0)
  | u :: rest =>
      match processWishlist fuel (world i u) with
      | None => None
      | Some (Exits c) => Some (mkRun (seen ++ [u]) files c)
      | Some (Saved f d searches) =>
          processAll fuel world (S i) rest (seen ++ u :: searches)
                     (files ++ [(f, d)])
      end
  end.

(** [main], from the answer to the URL prompt on. *)
Definition main (fuel : nat) (world : nat -> string -> Visit)
  (inputUrl : string) : option Run :=
  match wishlistUrls inputUrl with
  | [] => Some (mkRun [] [] 1)
  | urls => processAll fuel world 0 urls [] []
  end.

End Pipeline.

(** ** URL records the script can hold, and a reference runtime *)

(** URL records obtained from the parser, possibly after updates of the
    query through [searchParams]. *)
Inductive Reachable (rt : Runtime) : URL -> Prop :=
| Reachable_parsed : forall h u, parseURL rt h = Some u -> Reachable rt u
| Reachable_updated : forall u l,
    Reachable rt u -> Reachable rt (url (update rt u l)).

(** The round-trip law of the URL standard: the parser reads a serialized
    URL record back as the same record. *)
Definition RoundTrip (rt : Runtime) : Prop :=
  forall u, Reachable rt u -> parseURL rt (href u) = Some u.

Fixpoint allChars (P : ascii -> bool) (s : string) : bool :=
  match s with
  | EmptyString => true
  | String a s' => P a && allChars P s'
  end.

(** A small runtime for hrefs on which the standard parser rewrites
    nothing: a path-absolute reference, or the same under the script's
    origin, whose path is made of ASCII letters, digits, [/], [-] and [_]
    and whose query and fragment are made of the bytes the urlencoded
    serializer writes.  Other hrefs are rejected. *)
Module Reference.

Definition origin : string := "https://www.amazon.com".

Definition pathChar (a : ascii) : bool :=
  isAlnum a || Ascii.eqb a "/" || Ascii.eqb a "-" || Ascii.eqb a "_".

Definition queryChar (a : ascii) : bool :=
  formSafe a || Ascii.eqb a "+" || Ascii.eqb a "%" || Ascii.eqb a "="
  || Ascii.eqb a "&".

Definition pathOk (p : string) : bool :=
  match p with
  | String a r =>
      Ascii.eqb a "/"
      && match r with String b _ => negb (Ascii.eqb b "/") | EmptyString => true end
      && allChars pathChar r
  | EmptyString => false
  end.

Definition optChars (o : option string) : bool :=
  match o with Some s => allChars queryChar s | None => true end.

Definition cut (c : ascii) (s : string) : string * option string :=
  match splitFirst c s with
  | Some (l, r) => (l, Some r)
  | None => (s, None)
  end.

Definition parse (h : string) : option URL :=
  let body := match afterPrefix origin h with Some r => r | None => h end in
  let (pq, frag) := cut "#" body in
  let (p, q) := cut "?" pq in
  if pathOk p && optChars q && optChars frag
  then Some (mkURL (origin ++ p) q frag)
  else None.

Definition runtime : Runtime := mkRuntime parse (fun s => s).

End Reference.

(** A printable ASCII character other than the space. *)
Definition printable (c : ascii) : Prop := (33 <= N_of_ascii c <= 127)%N.

(** Well-formed UTF-8 text, in the ranges the decoder accepts. *)
Inductive WellFormed : string -> Prop :=
| WellFormed_end : WellFormed EmptyString
| WellFormed_1 : forall a t,
    between 0 127 a = true -> WellFormed t -> WellFormed (String a t)
| WellFormed_2 : forall a b t,
    between 0 127 a = false -> between 194 223 a = true -> cont b = true ->
    WellFormed t -> WellFormed (String a (String b t))
| WellFormed_3 : forall a b c t,
    between 0 127 a = false -> between 194 223 a = false ->
    between 224 239 a = true -> second3 a b = true -> cont c = true ->
    WellFormed t -> WellFormed (String a (String b (String c t)))
| WellFormed_4 : forall a b c d t,
    between 0 127 a = false -> between 194 223 a = false ->
    between 224 239 a = false -> between 240 244 a = true ->
    second4 a b = true -> cont c = true -> cont d = true ->
    WellFormed t -> WellFormed (String a (String b (String c (String d t)))).

(** A tuple after the UTF-8 decoder. *)
Definition decoded (p : string * string) : string * string :=
  (utf8Text (fst p), utf8Text (snd p)).

(** The list of tuples the clean-up of a product link leaves. *)
Definition cleanList (l : list (string * string)) : list (string * string) :=
  setFirst "th" "1" (without "ref_" (without "psc" l)).

(** Names and values the UTF-8 decoder leaves as they are. *)
Definition Settled (l : list (string * string)) : Prop :=
  Forall (fun p => decoded p = p) l.

(** The clock reading that [lastCheck] holds before reading number [k]
    when every reading finds the marker element. *)
Definition clockBefore (start : Z) (samples : nat -> Sample) (k : nat) : Z :=
  match k with
  | O => start
  | S k' => now (samples k')
  end.

(** URL records of the reference runtime. *)
Definition Plain (u : URL) : Prop :=
  exists p, beforeQuery u = (Reference.origin ++ p)%string
            /\ Reference.pathOk p = true
            /\ Reference.optChars (query u) = true
            /\ Reference.optChars (fragment u) = true.

(** ** Scenarios used to exercise the pipeline *)

Module Scenario.

Definition firstUrl : string := "https://www.amazon.com/hz/wishlist/ls/AAA".
Definition secondUrl : string := "https://www.amazon.com/hz/wishlist/ls/BBB".

(** A page with no CAPTCHA, a list named [Gifts], no end-of-list marker
    and no entries. *)
Definition plainVisit : Visit :=
  mkVisit false false false false false (Some "Gifts") (fun _ => false) 0
          (fun _ => mkSample true true 0) [] (fun _ _ => NoResult).

(** The same page behind a CAPTCHA that is still shown after the answer
    was submitted. *)
Definition captchaVisit : Visit :=
  mkVisit true true true true true (Some "Gifts") (fun _ => false) 0
          (fun _ => mkSample true true 0) [] (fun _ _ => NoResult).

(** The same page without the list-name element. *)
Definition namelessVisit : Visit :=
  mkVisit false false false false false None (fun _ => false) 0
          (fun _ => mkSample true true 0) [] (fun _ _ => NoResult).

Definition captchaWorld (i : nat) (_ : string) : Visit :=
  match i with O => captchaVisit | _ => plainVisit end.

Definition namelessWorld (i : nat) (_ : string) : Visit :=
  match i with O => namelessVisit | _ => plainVisit end.

(** The first URL succeeds, the second one meets the CAPTCHA. *)
Definition lateCaptchaWorld (i : nat) (_ : string) : Visit :=
  match i with 1 => captchaVisit | _ => plainVisit end.

(** The marker shows at the fifth check and stays; the clock is read
    every 500 ms. *)
Definition fifthAttemptVisit : Visit :=
  mkVisit false false false false false (Some "Gifts") (fun k => (4 <=? k)%nat) 0
          (fun k => mkSample true true (500 * Z.of_nat k)) []
          (fun _ _ => NoResult).

(** The marker is visible at once, then missing from the page for twenty
    readings (ten seconds), then visible again. *)
Definition flickerSamples (k : nat) : Sample :=
  if (k =? 0)%nat then mkSample true true 0
  else if (k <=? 20)%nat then mkSample false false (500 * Z.of_nat k)
  else mkSample true true (500 * Z.of_nat k).

Definition flickerVisit : Visit :=
  mkVisit false false false false false (Some "Gifts") (fun _ => true) 0
          flickerSamples [] (fun _ _ => NoResult).

End Scenario.

(** * Further definitions *)

(** ** A reader of comma-separated fields

    The usual reading of a CSV row: a field that opens with a double quote
    runs to the first double quote that is not written twice, any other
    field runs to the next comma. *)





(** The test of [escapeCSV]. *)
Definition special (field : string) : bool :=
  includes (str1 dquote) field || includes (str1 comma) field
  || includes (str1 newline) field.

(** ** The URL list of [scrape_amazon.ts] *)

Definition defaultWishlistUrl : string :=
  "https://www.amazon.com/hz/wishlist/ls/QF7GGWSPEL1A".

(** [wishlistUrls] in [scrape_amazon.ts]: no filter, and the default URL
    for a blank answer. *)
Definition wishlistUrlsOrDefault (inputUrl : string) : list string :=
  if truthy (trim inputUrl)
  then map trim (split "," inputUrl)
  else [defaultWishlistUrl].

(** Number of occurrences of [c] in [s]. *)
Fixpoint occurrences (c : ascii) (s : string) : nat :=
  match s with
  | EmptyString => 0
  | String a s' => (if Ascii.eqb a c then 1 else 0) + occurrences c s'
  end.

(** The characters of a sanitized list name. *)
Definition nameChar (a : ascii) : bool := isAlnum a || Ascii.eqb a "_".

(** When the extraction loop drops an entry. *)
Definition droppedEntry (rt : Runtime) (el : ItemElement) : Prop :=
  if nonAsin el then
    match nameSpan el with
    | None => True
    | Some t => trim t = EmptyString
    end
  else
    match nameAnchor el with
    | None => True
    | Some (t, h) =>
        trim t = EmptyString
        /\ match h with
           | None => True
           | Some h' => h' = EmptyString \/ parseURL rt h' = None
           end
    end.

(** ** A page whose marker stays hidden *)

Module Hang.

(** The marker is seen by the first check and is in the page but hidden
    at every later reading. *)
Definition hiddenVisit : Visit :=
  mkVisit false false false false false (Some "Gifts") (fun _ => true) 0
          (fun k => mkSample true false (500 * Z.of_nat k)) []
          (fun _ _ => NoResult).

End Hang.

(** * Properties *)

(** ** Strings *)

Lemma includes_nil (c : ascii) : includes (str1 c) EmptyString = false.
Proof. reflexivity. Qed.

Lemma includes_cons (c a : ascii) (s : string) :
  includes (str1 c) (String a s) = Ascii.eqb c a || includes (str1 c) s.
Proof. simpl. now rewrite andb_true_r. Qed.

Lemma includes_app (c : ascii) (s t : string) :
  includes (str1 c) (s ++ t) = includes (str1 c) s || includes (str1 c) t.
Proof.
  induction s as [|a s IH].
  - reflexivity.
  - change (String a s ++ t)%string with (String a (s ++ t)).
    now rewrite !includes_cons, IH, orb_assoc.
Qed.

Lemma includes_In (c : ascii) (s : string) :
  includes (str1 c) s = true <-> In c (list_ascii_of_string s).
Proof.
  induction s as [|a s IH].
  - simpl. split; [discriminate | tauto].
  - rewrite includes_cons, orb_true_iff, IH, Ascii.eqb_eq. simpl.
    split; (intros [H|H]; [left; now symmetry | now right]).
Qed.

Lemma includes_not_In (c : ascii) (s : string) :
  includes (str1 c) s = false <-> ~ In c (list_ascii_of_string s).
Proof.
  rewrite <- includes_In. destruct (includes (str1 c) s).
  - split; [discriminate | intros H; now destruct H].
  - split; [discriminate | reflexivity].
Qed.

Lemma list_ascii_app (s t : string) :
  list_ascii_of_string (s ++ t) = list_ascii_of_string s ++ list_ascii_of_string t.
Proof. induction s as [|a s IH]; simpl; [reflexivity | now rewrite IH]. Qed.

Lemma replaceAll_chars (c : ascii) (by_ s : string) :
  list_ascii_of_string (replaceAll c by_ s)
  = flat_map (fun a => if Ascii.eqb a c then list_ascii_of_string by_ else [a])
             (list_ascii_of_string s).
Proof.
  induction s as [|a s IH]; simpl; [reflexivity|].
  destruct (Ascii.eqb a c); simpl.
  - now rewrite list_ascii_app, IH.
  - now rewrite IH.
Qed.

(** ** CSV encoder *)

(** A field that holds none of the three characters is left alone. *)
Lemma escapeCSV_plain (field : string) :
  includes (str1 dquote) field = false ->
  includes (str1 comma) field = false ->
  includes (str1 newline) field = false ->
  escapeCSV field = field.
Proof.
  intros H1 H2 H3. unfold escapeCSV.
  change (includes "," field) with (includes (str1 comma) field).
  now rewrite H1, H2, H3.
Qed.

(** C5.  [escapeCSV] wraps a field in double quotes, every double quote
    of the field written twice, exactly when the field holds a double
    quote, a comma or a newline; any other field comes out unchanged. *)
Theorem escapeCSV_quotes_iff_special (field : string) :
  let chars := list_ascii_of_string field in
  let special := In dquote chars \/ In comma chars \/ In newline chars in
  let wrapped :=
    dquote :: flat_map (fun a => if Ascii.eqb a dquote then [dquote; dquote] else [a]) chars
    ++ [dquote] in
  (list_ascii_of_string (escapeCSV field) = wrapped <-> special)
  /\ (~ special -> escapeCSV field = field).
Proof.
  intros chars special wrapped.
  assert (Hplain : ~ special -> escapeCSV field = field).
  { intros Hn. apply escapeCSV_plain; apply includes_not_In; intros H;
      apply Hn; unfold special, chars; tauto. }
  assert (Hquoted : special -> list_ascii_of_string (escapeCSV field) = wrapped).
  { intros Hs. unfold escapeCSV.
    change (includes "," field) with (includes (str1 comma) field).
    assert (E : includes (str1 dquote) field || includes (str1 comma) field
                || includes (str1 newline) field = true).
    { rewrite !orb_true_iff, !includes_In. unfold special, chars in Hs. tauto. }
    rewrite E. cbn [list_ascii_of_string].
    rewrite list_ascii_app, replaceAll_chars. reflexivity. }
  split; [split; [|exact Hquoted] | exact Hplain].
  intros Hw.
  destruct (in_dec ascii_dec dquote chars) as [Hq|Hq]; [now left|].
  destruct (in_dec ascii_dec comma chars) as [Hc|Hc]; [now (right; left)|].
  destruct (in_dec ascii_dec newline chars) as [Hl|Hl]; [now (right; right)|].
  assert (Hn : ~ special) by (unfold special; tauto).
  rewrite (Hplain Hn) in Hw. fold chars in Hw.
  exfalso. apply Hq. rewrite Hw. now left.
Qed.

Lemma decimal_digits (c : ascii) (d : Decimal.uint) :
  (N_of_ascii c <? 48)%N = true ->
  includes (str1 c) (NilEmpty.string_of_uint d) = false.
Proof.
  intros Hc.
  assert (Hd : forall a, (48 <=? N_of_ascii a)%N = true -> Ascii.eqb c a = false).
  { intros a Ha. apply Ascii.eqb_neq. intros ->.
    apply N.ltb_lt in Hc. apply N.leb_le in Ha. lia. }
  induction d; cbn [NilEmpty.string_of_uint]; try reflexivity;
    rewrite includes_cons, IHd, Hd; reflexivity.
Qed.

Lemma escapeCSV_option_header (i : nat) :
  escapeCSV ("Option " ++ decimal i) = ("Option " ++ decimal i)%string.
Proof.
  apply escapeCSV_plain; rewrite includes_app, orb_false_iff;
    (split; [reflexivity | apply decimal_digits; reflexivity]).
Qed.

Lemma escapeCSV_headerColumns (n : nat) :
  map escapeCSV (headerColumns n) = headerColumns n.
Proof.
  unfold headerColumns. rewrite map_app, map_map. f_equal.
  apply map_ext. intros i. apply escapeCSV_option_header.
Qed.

Lemma fold_max_ge (f : WishlistItem -> nat) (l : list WishlistItem) (m : nat) :
  m <= fold_left (fun m it => Nat.max m (f it)) l m
  /\ forall it, In it l -> f it <= fold_left (fun m it => Nat.max m (f it)) l m.
Proof.
  revert m. induction l as [|x l IH]; intros m; simpl.
  - split; [lia | tauto].
  - destruct (IH (Nat.max m (f x))) as [H1 H2]. split; [lia|].
    intros it [<-|Hin]; [lia | now apply H2].
Qed.

Lemma fold_max_attained (f : WishlistItem -> nat) (l : list WishlistItem) (m : nat) :
  fold_left (fun m it => Nat.max m (f it)) l m = m
  \/ exists it, In it l /\ f it = fold_left (fun m it => Nat.max m (f it)) l m.
Proof.
  revert m. induction l as [|x l IH]; intros m; simpl.
  - now left.
  - destruct (IH (Nat.max m (f x))) as [H|[it [Hin H]]].
    + rewrite H. destruct (Nat.max_spec m (f x)) as [[_ E]|[_ E]]; rewrite E.
      * right. exists x. split; [now left | reflexivity].
      * now left.
    + right. exists it. split; [now right | assumption].
Qed.

Lemma optionAt_nth (opts : list string) (i : nat) :
  optionAt opts i = nth i opts EmptyString.
Proof.
  unfold optionAt. revert i. induction opts as [|o opts IH]; intros [|i]; simpl;
    try reflexivity.
  - now destruct o.
  - apply IH.
Qed.

(** C6.  With [N] the largest number of options of an item (0 for an
    empty batch), the header is the four fixed columns followed by
    [Option 1] to [Option N], and the row of every item has [4 + N] fields:
    the four scalar fields, then its options, then empty fields up to
    [N]. *)
Theorem csv_header_and_row_width (items : list WishlistItem) :
  let N := maxOptions items in
  let header :=
    ["Item Name"; "Manufacturer"; "Product Link"; "Non-Amazon Link"]
    ++ map (fun i => ("Option " ++ decimal i)%string) (seq 1 N) in
  (items = [] -> N = 0)
  /\ (forall it, In it items -> List.length (options it) <= N)
  /\ (items <> [] -> exists it, In it items /\ List.length (options it) = N)
  /\ csvRows items = join "," header :: map (fun it => join "," (csvRow N it)) items
  /\ List.length header = 4 + N
  /\ forall it, In it items ->
       List.length (csvRow N it) = 4 + N
       /\ firstn 4 (csvRow N it)
          = [escapeCSV (itemName it); escapeCSV (manufacturer it);
             escapeCSV (productLink it); escapeCSV (nonAmazonLink it)]
       /\ forall i, (i < N)%nat ->
            nth (4 + i) (csvRow N it) EmptyString
            = if (i <? List.length (options it))%nat
              then escapeCSV (nth i (options it) EmptyString)
              else EmptyString.
Proof.
  intros N header. unfold N, maxOptions.
  repeat split.
  - intros ->. reflexivity.
  - intros it Hin.
    apply (proj2 (fold_max_ge (fun it => List.length (options it)) items 0) it Hin).
  - intros Hne.
    destruct (fold_max_attained (fun it => List.length (options it)) items 0)
      as [H|H]; [|exact H].
    destruct items as [|x items]; [congruence|].
    exists x. split; [now left|].
    pose proof (proj2 (fold_max_ge (fun it => List.length (options it)) (x :: items) 0)
                  x (or_introl eq_refl)) as Hx.
    cbv beta in Hx, H. lia.
  - unfold csvRows. fold (maxOptions items). rewrite escapeCSV_headerColumns.
    reflexivity.
  - unfold header. rewrite length_app, length_map, length_seq. reflexivity.
  - unfold csvRow. rewrite length_app, length_map, length_seq. reflexivity.
  - intros i Hi. fold (maxOptions items) in *.
    unfold csvRow.
    change (nth (4 + i) (?a :: ?b :: ?c :: ?d :: ?t) EmptyString)
      with (nth i t EmptyString).
    cbn [app nth Nat.add].
    rewrite nth_indep with (d' := (fun i => escapeCSV (optionAt (options it) i)) 0)
      by (now rewrite length_map, length_seq).
    rewrite map_nth with (d := 0) (f := fun i => escapeCSV (optionAt (options it) i)).
    rewrite seq_nth by assumption. cbn [Nat.add]. rewrite optionAt_nth.
    destruct (i <? List.length (options it))%nat eqn:E; [reflexivity|].
    apply Nat.ltb_ge in E. now rewrite nth_overflow.
Qed.

(** ** The URL prompt *)

Lemma startsWith_prefix (p s : string) :
  startsWith p s = true <-> exists r, s = (p ++ r)%string.
Proof.
  revert s. induction p as [|a p IH]; intros s; simpl.
  - split; [intros _; now exists s | reflexivity].
  - destruct s as [|b s].
    + split; [discriminate | intros [r Hr]; discriminate].
    + rewrite andb_true_iff, Ascii.eqb_eq, IH. split.
      * intros [-> [r ->]]. now exists r.
      * intros [r Hr]. injection Hr as -> ->. split; [reflexivity | now exists r].
Qed.

Lemma ws1_range (a : ascii) : ws1 a = true -> (N_of_ascii a <= 32)%N.
Proof.
  unfold ws1. rewrite orb_true_iff, andb_true_iff, !N.leb_le, N.eqb_eq. lia.
Qed.

Lemma ws2_range (a b : ascii) :
  ws2 a b = true -> (128 <= N_of_ascii a /\ 128 <= N_of_ascii b)%N.
Proof.
  unfold ws2. rewrite andb_true_iff, !N.eqb_eq. lia.
Qed.

Lemma ws3_range (a b c : ascii) :
  ws3 a b c = true ->
  (128 <= N_of_ascii a /\ 128 <= N_of_ascii b /\ 128 <= N_of_ascii c)%N.
Proof.
  unfold ws3.
  rewrite !orb_true_iff, !andb_true_iff, !orb_true_iff, !andb_true_iff,
    !N.eqb_eq, !N.leb_le.
  lia.
Qed.

Lemma dropSpace_keeps (c : ascii) (backwards : bool) (s r : string) :
  printable c ->
  includes (str1 c) s = true -> dropSpace backwards s = Some r ->
  includes (str1 c) r = true.
Proof.
  intros Hc Hin Hd. unfold printable in Hc.
  assert (Hne : forall a, (N_of_ascii a <= 32 \/ 128 <= N_of_ascii a)%N ->
                          Ascii.eqb c a = false).
  { intros a Ha. apply Ascii.eqb_neq. intros ->. lia. }
  destruct s as [|a r1]; [discriminate|]. simpl in Hd.
  rewrite includes_cons in Hin.
  destruct (ws1 a) eqn:E1.
  - injection Hd as <-. apply ws1_range in E1.
    now rewrite (Hne a) in Hin by lia.
  - destruct r1 as [|b r2]; [discriminate|].
    rewrite includes_cons in Hin.
    destruct (if backwards then ws2 b a else ws2 a b) eqn:E2.
    + injection Hd as <-.
      assert (128 <= N_of_ascii a /\ 128 <= N_of_ascii b)%N as [Ha Hb]
        by (destruct backwards; apply ws2_range in E2; lia).
      now rewrite (Hne a), (Hne b) in Hin by lia.
    + destruct r2 as [|d r3]; [discriminate|].
      rewrite includes_cons in Hin.
      destruct (if backwards then ws3 d b a else ws3 a b d) eqn:E3;
        [|discriminate].
      injection Hd as <-.
      assert (128 <= N_of_ascii a /\ 128 <= N_of_ascii b /\ 128 <= N_of_ascii d)%N
        as [Ha [Hb Hd']] by (destruct backwards; apply ws3_range in E3; lia).
      now rewrite (Hne a), (Hne b), (Hne d) in Hin by lia.
Qed.

Lemma dropSpaces_keeps (c : ascii) (backwards : bool) (fuel : nat) (s : string) :
  printable c ->
  includes (str1 c) s = true ->
  includes (str1 c) (dropSpaces fuel backwards s) = true.
Proof.
  intros Hc. revert s. induction fuel as [|fuel IH]; intros s Hin; simpl.
  - assumption.
  - destruct (dropSpace backwards s) as [r|] eqn:E; [|assumption].
    apply IH. eapply dropSpace_keeps; eassumption.
Qed.

Lemma includes_rev (c : ascii) (s : string) :
  includes (str1 c) (rev s) = includes (str1 c) s.
Proof.
  induction s as [|a s IH]; [reflexivity|].
  simpl rev. rewrite includes_app, IH, includes_cons.
  change (str1 a) with (String a EmptyString).
  rewrite includes_cons, includes_nil, orb_false_r. apply orb_comm.
Qed.

(** [trim] removes no printable character. *)
Lemma trim_keeps (c : ascii) (s : string) :
  printable c -> includes (str1 c) s = true -> includes (str1 c) (trim s) = true.
Proof.
  intros Hc Hin. unfold trim, trimEnd, trimStart.
  rewrite includes_rev. apply dropSpaces_keeps; [assumption|].
  rewrite includes_rev. now apply dropSpaces_keeps.
Qed.

Lemma split_without_separator (c : ascii) (s : string) :
  includes (str1 c) s = false -> split c s = [s].
Proof.
  induction s as [|a s IH]; [reflexivity|].
  rewrite includes_cons, orb_false_iff. intros [Ha Hs]. simpl.
  rewrite Ascii.eqb_sym, Ha, (IH Hs). reflexivity.
Qed.

Lemma truthy_false (s : string) : truthy s = false <-> s = EmptyString.
Proof. destruct s; simpl; split; congruence. Qed.

Lemma wishlistUrls_unfold (inputUrl : string) :
  wishlistUrls inputUrl
  = filter (startsWith wishlistPrefix) (map trim (split "," inputUrl)).
Proof.
  unfold wishlistUrls. destruct (truthy (trim inputUrl)) eqn:E; [reflexivity|].
  apply truthy_false in E.
  destruct (includes (str1 comma) inputUrl) eqn:Hc.
  - apply (trim_keeps comma) in Hc; [|unfold printable; simpl; lia].
    rewrite E in Hc. discriminate.
  - change ","%char with comma. rewrite (split_without_separator _ _ Hc).
    simpl. now rewrite E.
Qed.

(** C10.  A piece of the answer, cut at the commas and trimmed, is kept
    exactly when it starts with the wishlist prefix; when nothing is kept,
    which includes an empty or blank answer, [main] exits with code 1 and
    has navigated nowhere. *)
Theorem wishlistUrls_keeps_prefixed_or_exits
  (rt : Runtime) (fuel : nat) (world : nat -> string -> Visit) (inputUrl : string) :
  let pieces := map trim (split "," inputUrl) in
  wishlistUrls inputUrl = filter (startsWith wishlistPrefix) pieces
  /\ (forall u, In u (wishlistUrls inputUrl)
                <-> In u pieces
                    /\ exists r, u = ("https://www.amazon.com/hz/wishlist/ls/" ++ r)%string)
  /\ (trim inputUrl = EmptyString -> wishlistUrls inputUrl = [])
  /\ (wishlistUrls inputUrl = [] ->
      main rt fuel world inputUrl = Some (mkRun [] [] 1)).
Proof.
  intros pieces. split; [apply wishlistUrls_unfold|]. split; [|split].
  - intros u. rewrite wishlistUrls_unfold, filter_In, startsWith_prefix.
    reflexivity.
  - intros E. unfold wishlistUrls. now rewrite E.
  - intros E. unfold main. now rewrite E.
Qed.

(** ** Retention and the link resolution fallback *)

Lemma truthy_true (s : string) : truthy s = true <-> s <> EmptyString.
Proof. destruct s; simpl; split; congruence. Qed.

(** What the fallback may do to an item: nothing, or fill an empty
    [nonAmazonLink]. *)
Lemma resolveItem_frame (answer : string -> SearchOutcome) (it : WishlistItem) :
  resolveItem answer it = it
  \/ nonAmazonLink it = EmptyString
     /\ exists l, l <> EmptyString /\ resolveItem answer it = withNonAmazonLink it l.
Proof.
  unfold resolveItem.
  destruct (truthy (nonAmazonLink it)) eqn:E; [now left|].
  apply truthy_false in E.
  destruct (answer (duckUrl it)) as [|[h|]]; try now left.
  destruct (truthy h) eqn:Eh; [|now left].
  apply truthy_true in Eh.
  destruct (matchUddg h) as [m|] eqn:Em.
  - destruct (decodeURIComponent m) as [d|] eqn:Ed; [|now left].
    destruct d as [|a d].
    + left. destruct it; simpl in *; now subst.
    + right. split; [assumption|]. now exists (String a d).
  - right. split; [assumption|]. now exists h.
Qed.

Lemma retained_spec (it : WishlistItem) :
  retained it = true
  <-> itemName it <> EmptyString \/ productLink it <> EmptyString
      \/ nonAmazonLink it <> EmptyString.
Proof.
  unfold retained. rewrite !orb_true_iff, !truthy_true. tauto.
Qed.

Lemma resolveItem_retained (answer : string -> SearchOutcome) (it : WishlistItem) :
  retained it = true -> retained (resolveItem answer it) = true.
Proof.
  intros H. destruct (resolveItem_frame answer it) as [->|[_ [l [Hl ->]]]];
    [assumption|].
  apply retained_spec. right. right. exact Hl.
Qed.

(** C2.  No item whose name, product link and non-Amazon link are all
    empty is in the extracted batch, nor in the batch after the fallback
    that goes to the CSV encoder: every item in them has one of the three
    fields non-empty. *)
Theorem retained_items_have_data
  (rt : Runtime) (els : list ItemElement) (search : nat -> string -> SearchOutcome) :
  let hasData it :=
    itemName it <> EmptyString \/ productLink it <> EmptyString
    \/ nonAmazonLink it <> EmptyString in
  Forall hasData (scrapeItems rt els)
  /\ Forall hasData (resolveLinks search 0 (scrapeItems rt els))
  /\ ~ In (mkItem EmptyString EmptyString [] EmptyString EmptyString)
          (scrapeItems rt els)
  /\ forall m o, ~ In (mkItem EmptyString m o EmptyString EmptyString)
                      (resolveLinks search 0 (scrapeItems rt els)).
Proof.
  intros hasData.
  assert (H1 : Forall (fun it => retained it = true) (scrapeItems rt els)).
  { apply Forall_forall. intros it Hin. unfold scrapeItems in Hin.
    now apply filter_In in Hin. }
  assert (H2 : forall l i, Forall (fun it => retained it = true) l ->
                 Forall (fun it => retained it = true) (resolveLinks search i l)).
  { induction l as [|x l IH]; intros i Hl; simpl; [constructor|].
    inversion Hl; subst. constructor; [now apply resolveItem_retained | now apply IH]. }
  specialize (H2 _ 0 H1).
  assert (Hd : forall l, Forall (fun it => retained it = true) l -> Forall hasData l).
  { intros l. apply Forall_impl. intros it. apply retained_spec. }
  split; [now apply Hd|]. split; [now apply Hd|]. split.
  - intros Hin. rewrite Forall_forall in H1. now specialize (H1 _ Hin).
  - intros m o Hin. rewrite Forall_forall in H2. now specialize (H2 _ Hin).
Qed.

(** C9.  The fallback keeps the name, manufacturer, options and product
    link of every item, leaves an item whose non-Amazon link is non-empty
    as it is, and changes an item only by giving a non-empty value to an
    empty non-Amazon link. *)
Theorem fallback_only_fills_empty_link
  (search : nat -> string -> SearchOutcome) (i : nat) (items : list WishlistItem) :
  Forall2
    (fun it it' =>
       itemName it' = itemName it
       /\ manufacturer it' = manufacturer it
       /\ options it' = options it
       /\ productLink it' = productLink it
       /\ (nonAmazonLink it <> EmptyString -> it' = it)
       /\ (it' <> it ->
           nonAmazonLink it = EmptyString /\ nonAmazonLink it' <> EmptyString))
    items (resolveLinks search i items).
Proof.
  revert i. induction items as [|it items IH]; intros i; simpl; constructor;
    [|apply IH].
  destruct (resolveItem_frame (search i) it) as [->|[He [l [Hl ->]]]].
  - split; [reflexivity|]. split; [reflexivity|]. split; [reflexivity|].
    split; [reflexivity|]. split; [reflexivity|]. intros Hne. now destruct Hne.
  - split; [reflexivity|]. split; [reflexivity|]. split; [reflexivity|].
    split; [reflexivity|]. split.
    + intros Hne. now destruct Hne.
    + intros _. split; [exact He | exact Hl].
Qed.

(** ** Scroll-completion detector *)

Lemma scrollLoop_unseen (seen : nat -> bool) (remaining count : nat) :
  (forall k, count <= k < count + remaining -> seen k = false) ->
  scrollLoop seen remaining count = (count + remaining, false).
Proof.
  revert count. induction remaining as [|r IH]; intros count H; simpl.
  - now rewrite Nat.add_0_r.
  - rewrite H by lia. rewrite IH.
    + f_equal. lia.
    + intros k Hk. apply H. lia.
Qed.

Lemma scrollLoop_seen (seen : nat -> bool) (remaining count n : nat) :
  n < remaining ->
  (forall k, count <= k < count + n -> seen k = false) ->
  seen (count + n) = true ->
  scrollLoop seen remaining count = (count + n, true).
Proof.
  revert count n. induction remaining as [|r IH]; intros count n Hn Hf Ht; [lia|].
  simpl. destruct n as [|n].
  - rewrite Nat.add_0_r in *. now rewrite Ht.
  - rewrite Hf by lia.
    replace (count + S n) with (S count + n) in * by lia.
    apply IH; [lia | | assumption].
    intros k Hk. apply Hf. lia.
Qed.

(** Once the clock is known to advance by 500 ms between readings, a
    marker that stays visible ends the second loop. *)
Lemma stabilize_ends (samples : nat -> Sample) (fuel k : nat) (t lastCheck : Z) :
  (forall j, present (samples j) = true /\ visible (samples j) = true) ->
  (forall j, now (samples j) + 500 <= now (samples (S j)))%Z ->
  (lastCheck + 500 <= now (samples k))%Z ->
  (10000 <= t + 500 * Z.of_nat fuel)%Z ->
  exists r, stabilize fuel samples k t lastCheck = Some r.
Proof.
  intros Hv Hc. revert k t lastCheck.
  induction fuel as [|fuel IH]; intros k t lastCheck Hl Ht.
  - simpl. destruct (t <? 10000)%Z eqn:E; [apply Z.ltb_lt in E; lia|].
    now eexists.
  - cbn [stabilize]. destruct (t <? 10000)%Z eqn:E; [|now eexists].
    destruct (Hv k) as [-> ->]. apply IH; [apply Hc | lia].
Qed.

(** When the marker element is found at every reading, the second loop
    ends only on a run of visible readings: the accumulator is the time
    from the reading before the run (the start of the loop for a run that
    begins at the first reading) to the last reading. *)
Lemma stabilize_present_run (samples : nat -> Sample) (start : Z) :
  (forall j, present (samples j) = true) ->
  forall fuel k j t n t',
    j <= k ->
    (forall i, j <= i < k -> visible (samples i) = true) ->
    (j = 0 \/ visible (samples (j - 1)) = false) ->
    t = (clockBefore start samples k - clockBefore start samples j)%Z ->
    stabilize fuel samples k t (clockBefore start samples k) = Some (n, t') ->
    exists j', j' <= n
      /\ (forall i, j' <= i < n -> visible (samples i) = true)
      /\ (j' = 0 \/ visible (samples (j' - 1)) = false)
      /\ t' = (clockBefore start samples n - clockBefore start samples j')%Z
      /\ (10000 <= t')%Z.
Proof.
  intros Hp. induction fuel as [|fuel IH]; intros k j t n t' Hjk Hrun Hj Ht Hs.
  - simpl in Hs. destruct (t <? 10000)%Z eqn:E; [discriminate|].
    injection Hs as <- <-. apply Z.ltb_ge in E. exists j. auto.
  - cbn [stabilize] in Hs. destruct (t <? 10000)%Z eqn:E.
    + rewrite Hp in Hs. destruct (visible (samples k)) eqn:Ev.
      * refine (IH (S k) j _ n t' _ _ Hj _ Hs); [lia | | simpl; lia].
        intros i Hi. destruct (Nat.eq_dec i k) as [->|Hne]; [assumption|].
        apply Hrun. lia.
      * refine (IH (S k) (S k) _ n t' _ _ _ _ Hs); [lia | | | simpl; lia].
        -- intros i Hi. lia.
        -- right. now replace (S k - 1) with k by lia.
    + injection Hs as <- <-. apply Z.ltb_ge in E. exists j. auto.
Qed.

(** C7.  When the marker is first visible at the fifth check and stays
    visible (the clock advancing by at least 500 ms from one reading to
    the next), the detector ends complete after 5 scrolls, within the
    budget of 30; when the marker is never visible, it ends incomplete
    after exactly 30 scrolls. *)
Theorem detector_fifth_attempt_and_budget (v : Visit) (fuel : nat) :
  ((forall k, k < 4 -> endOfListSeen v k = false) ->
   endOfListSeen v 4 = true ->
   (forall j, present (stabilizeSamples v j) = true
              /\ visible (stabilizeSamples v j) = true) ->
   (stabilizeStart v <= now (stabilizeSamples v 0))%Z ->
   (forall j, now (stabilizeSamples v j) + 500 <= now (stabilizeSamples v (S j)))%Z ->
   21 <= fuel ->
   detect fuel v = Some (mkDetection 5 4 Complete) /\ 5 <= maxScrolls)
  /\ ((forall k, k < maxScrolls -> endOfListSeen v k = false) ->
      detect fuel v = Some (mkDetection 30 30 Incomplete)).
Proof.
  split.
  - intros Hf Ht Hv H0 Hc Hfuel. split; [|unfold maxScrolls; lia].
    unfold detect.
    rewrite (scrollLoop_seen (endOfListSeen v) maxScrolls 0 4);
      [|unfold maxScrolls; lia | intros k Hk; apply Hf; lia | exact Ht].
    cbn [snd fst scrollsIssued Nat.add].
    destruct fuel as [|fuel]; [lia|].
    cbn [stabilize]. change (0 <? 10000)%Z with true. cbv iota.
    destruct (Hv 0) as [-> ->].
    destruct (stabilize_ends (stabilizeSamples v) fuel 1
                (0 + (now (stabilizeSamples v 0) - stabilizeStart v))
                (now (stabilizeSamples v 0)) Hv Hc) as [r ->];
      [apply Hc | lia | reflexivity].
  - intros Hf. unfold detect.
    rewrite (scrollLoop_unseen (endOfListSeen v) maxScrolls 0)
      by (intros k Hk; apply Hf; lia).
    reflexivity.
Qed.

(** C7 at two concrete pages. *)
Lemma detector_fifth_attempt_and_budget_witness :
  detect 21 Scenario.fifthAttemptVisit = Some (mkDetection 5 4 Complete)
  /\ detect 0 Scenario.plainVisit = Some (mkDetection 30 30 Incomplete).
Proof.
  split.
  - refine (proj1 (proj1 (detector_fifth_attempt_and_budget
                            Scenario.fifthAttemptVisit 21) _ _ _ _ _ _)).
    + intros k Hk. do 4 (destruct k as [|k]; [reflexivity|]). lia.
    + reflexivity.
    + intros j. split; reflexivity.
    + simpl. lia.
    + intros j. cbn [Scenario.fifthAttemptVisit stabilizeSamples now]. lia.
    + lia.
  - apply (proj2 (detector_fifth_attempt_and_budget Scenario.plainVisit 0)).
    intros k _. reflexivity.
Defined.

(** C8.  A page on which the marker is missing for twenty readings in a
    row after a single visible reading: the accumulator is not reset while
    the marker is missing, the next visible reading adds the whole gap,
    and the detector ends complete with 10500 ms accumulated although no
    two consecutive readings saw the marker. *)
Theorem stabilize_counts_missing_marker :
  stabilize 22 Scenario.flickerSamples 0 0 0 = Some (22, 10500%Z)
  /\ detect 22 Scenario.flickerVisit = Some (mkDetection 1 0 Complete)
  /\ (forall k, 1 <= k <= 20 -> present (Scenario.flickerSamples k) = false)
  /\ stabilize 21 Scenario.flickerSamples 0 0 0 = None.
Proof.
  split; [reflexivity|]. split; [reflexivity|]. split; [|reflexivity].
  intros k Hk. unfold Scenario.flickerSamples.
  destruct (k =? 0)%nat eqn:E0; [apply Nat.eqb_eq in E0; lia|].
  destruct (k <=? 20)%nat eqn:E1; [reflexivity|].
  apply Nat.leb_gt in E1. lia.
Qed.

(** ** Failures that end the run *)

Lemma unresolved_name (v : Visit) :
  listNameText v = None -> wishlistName v = "wishlist".
Proof. unfold wishlistName. now intros ->. Qed.

Lemma processWishlist_exits (rt : Runtime) (fuel : nat) (v : Visit) :
  captchaExits v = true \/ wishlistName v = "wishlist" ->
  processWishlist rt fuel v = Some (Exits 1).
Proof.
  unfold processWishlist. intros [H|H].
  - now rewrite H.
  - rewrite H. now destruct (captchaExits v).
Qed.

(** The loop over a list of URLs that ends normally carries on with the
    URLs that follow. *)
Lemma processAll_app (rt : Runtime) (fuel : nat) (world : nat -> string -> Visit)
  (pre rest : list string) (i : nat) (seen : list string)
  (files : list (string * string)) (run : Run) :
  processAll rt fuel world i pre seen files = Some run ->
  exitCode run = 0 ->
  processAll rt fuel world i (pre ++ rest) seen files
  = processAll rt fuel world (i + List.length pre) rest (visited run) (written run).
Proof.
  revert i seen files. induction pre as [|u pre IH]; intros i seen files Hrun Hexit.
  - simpl in *. injection Hrun as <-. simpl. now rewrite Nat.add_0_r.
  - simpl in *.
    destruct (processWishlist rt fuel (world i u)) as [[c|f d searches]|] eqn:E;
      [|rewrite (IH _ _ _ Hrun Hexit); f_equal; lia | discriminate].
    injection Hrun as <-. simpl in Hexit. subst c.
    exfalso.
    (* an exit inside the loop always carries code 1 *)
    clear IH. unfold processWishlist in E.
    destruct (captchaExits (world i u)); [discriminate|].
    destruct (String.eqb (wishlistName (world i u)) "wishlist"); [discriminate|].
    destruct (detect fuel (world i u)); discriminate.
Qed.

(** C1, as the code has it.  When the CAPTCHA prompt is still shown after
    the answer was submitted, or the list name is not resolved (no name
    element leaves the name at [wishlist]), [process.exit(1)] ends the
    whole run: the URLs before are processed as usual, the failing URL is
    navigated to, no file is written for it, and no later URL is
    navigated to or written. *)
Theorem failed_wishlist_exits_process
  (rt : Runtime) (fuel : nat) (world : nat -> string -> Visit)
  (pre rest : list string) (u : string) (i : nat) (seen : list string)
  (files : list (string * string)) (run : Run) :
  processAll rt fuel world i pre seen files = Some run ->
  exitCode run = 0 ->
  captchaExits (world (i + List.length pre) u) = true
  \/ listNameText (world (i + List.length pre) u) = None
  \/ wishlistName (world (i + List.length pre) u) = "wishlist" ->
  processAll rt fuel world i (pre ++ u :: rest) seen files
  = Some (mkRun (visited run ++ [u]) (written run) 1).
Proof.
  intros Hrun Hexit Hfail.
  rewrite (processAll_app _ _ _ _ _ _ _ _ _ Hrun Hexit). simpl.
  rewrite processWishlist_exits; [reflexivity|].
  destruct Hfail as [H|[H|H]]; [now left | right; now apply unresolved_name | now right].
Qed.

(** C1 at a batch of two URLs whose second one meets the CAPTCHA: the
    file of the first URL is written, then the run exits with code 1. *)
Lemma failed_wishlist_exits_process_witness :
  processAll Reference.runtime 0 Scenario.lateCaptchaWorld 0
    ([Scenario.firstUrl] ++ Scenario.secondUrl :: [Scenario.firstUrl]) [] []
  = Some (mkRun [Scenario.firstUrl; Scenario.secondUrl]
                [("Gifts.csv", "Item Name,Manufacturer,Product Link,Non-Amazon Link")]
                1).
Proof.
  exact (failed_wishlist_exits_process Reference.runtime 0 Scenario.lateCaptchaWorld
           [Scenario.firstUrl] [Scenario.firstUrl] Scenario.secondUrl 0 [] []
           (mkRun [Scenario.firstUrl]
                  [("Gifts.csv", "Item Name,Manufacturer,Product Link,Non-Amazon Link")]
                  0)
           eq_refl eq_refl (or_introl eq_refl)).
Defined.

(** C1 as stated fails: in a batch of two URLs whose first one meets a
    failed CAPTCHA, or has no list name, the run exits with code 1 right
    after the first navigation; the second URL, whose page would have been
    exported, is never navigated to and no file is written. *)
Lemma failed_wishlist_stops_batch :
  let input := (Scenario.firstUrl ++ "," ++ Scenario.secondUrl)%string in
  wishlistUrls input = [Scenario.firstUrl; Scenario.secondUrl]
  /\ captchaExits (Scenario.captchaWorld 0 Scenario.firstUrl) = true
  /\ main Reference.runtime 0 Scenario.captchaWorld input
     = Some (mkRun [Scenario.firstUrl] [] 1)
  /\ listNameText (Scenario.namelessWorld 0 Scenario.firstUrl) = None
  /\ main Reference.runtime 0 Scenario.namelessWorld input
     = Some (mkRun [Scenario.firstUrl] [] 1)
  /\ processWishlist Reference.runtime 0 (Scenario.captchaWorld 1 Scenario.secondUrl)
     = Some (Saved "Gifts.csv"
                   "Item Name,Manufacturer,Product Link,Non-Amazon Link" []).
Proof. vm_compute. repeat split. Qed.

(** ** The urlencoded serializer and parser *)

Ltac each_byte a := destruct a as [[] [] [] [] [] [] [] []].

Lemma formEncodeByte_decodes (a : ascii) (t : string) :
  percentDecode (replaceAll "+" " " (formEncodeByte a ++ t))
  = String a (percentDecode (replaceAll "+" " " t)).
Proof. each_byte a; reflexivity. Qed.

Lemma formEncode_decodes (s : string) :
  percentDecode (replaceAll "+" " " (formEncode s)) = s.
Proof.
  induction s as [|a s IH]; [reflexivity|].
  cbn [formEncode]. now rewrite formEncodeByte_decodes, IH.
Qed.

Lemma formEncodeByte_chars (a : ascii) :
  allChars (fun b => formSafe b || Ascii.eqb b "+" || Ascii.eqb b "%")
           (formEncodeByte a) = true.
Proof. each_byte a; reflexivity. Qed.

Lemma allChars_app (P : ascii -> bool) (s t : string) :
  allChars P (s ++ t) = allChars P s && allChars P t.
Proof.
  induction s as [|a s IH]; [reflexivity|].
  simpl. now rewrite IH, andb_assoc.
Qed.

Lemma allChars_impl (P Q : ascii -> bool) (s : string) :
  (forall a, P a = true -> Q a = true) -> allChars P s = true -> allChars Q s = true.
Proof.
  intros H. induction s as [|a s IH]; [reflexivity|].
  simpl. rewrite !andb_true_iff. intros [Ha Hs]. split; [now apply H | now apply IH].
Qed.

Lemma formEncode_chars (s : string) :
  allChars (fun b => formSafe b || Ascii.eqb b "+" || Ascii.eqb b "%")
           (formEncode s) = true.
Proof.
  induction s as [|a s IH]; [reflexivity|].
  cbn [formEncode]. now rewrite allChars_app, formEncodeByte_chars, IH.
Qed.

Lemma allChars_excludes (P : ascii -> bool) (c : ascii) (s : string) :
  P c = false -> allChars P s = true -> includes (str1 c) s = false.
Proof.
  intros Hc. induction s as [|a s IH]; [reflexivity|].
  simpl allChars. rewrite andb_true_iff, includes_cons. intros [Ha Hs].
  rewrite (IH Hs), orb_false_r. apply Ascii.eqb_neq. intros ->. congruence.
Qed.

Lemma formEncode_excludes (c : ascii) (s : string) :
  formSafe c || Ascii.eqb c "+" || Ascii.eqb c "%" = false ->
  includes (str1 c) (formEncode s) = false.
Proof.
  intros Hc.
  apply (allChars_excludes (fun b => formSafe b || Ascii.eqb b "+" || Ascii.eqb b "%"));
    [exact Hc | apply formEncode_chars].
Qed.

Lemma splitFirst_at (c : ascii) (l r : string) :
  includes (str1 c) l = false -> splitFirst c (l ++ String c r) = Some (l, r).
Proof.
  induction l as [|a l IH]; simpl app.
  - intros _. simpl. now rewrite Ascii.eqb_refl.
  - rewrite includes_cons, orb_false_iff. intros [Ha Hl].
    change (String a l ++ String c r)%string with (String a (l ++ String c r)).
    cbn [splitFirst]. rewrite Ascii.eqb_sym, Ha, (IH Hl). reflexivity.
Qed.

Lemma splitFirst_none (c : ascii) (l : string) :
  includes (str1 c) l = false -> splitFirst c l = None.
Proof.
  induction l as [|a l IH]; [reflexivity|].
  rewrite includes_cons, orb_false_iff. intros [Ha Hl].
  cbn [splitFirst]. now rewrite Ascii.eqb_sym, Ha, (IH Hl).
Qed.

Lemma split_at (c : ascii) (l r : string) :
  includes (str1 c) l = false -> split c (l ++ String c r) = l :: split c r.
Proof.
  induction l as [|a l IH].
  - intros _. simpl. now rewrite Ascii.eqb_refl.
  - rewrite includes_cons, orb_false_iff. intros [Ha Hl].
    change (String a l ++ String c r)%string with (String a (l ++ String c r)).
    cbn [split]. rewrite Ascii.eqb_sym, Ha, (IH Hl). reflexivity.
Qed.

Lemma split_join (c : ascii) (x : string) (xs : list string) :
  Forall (fun p => includes (str1 c) p = false) (x :: xs) ->
  split c (join (str1 c) (x :: xs)) = x :: xs.
Proof.
  revert x. induction xs as [|y ys IH]; intros x H; inversion H; subst.
  - simpl. now apply split_without_separator.
  - change (join (str1 c) (x :: y :: ys))
      with (x ++ String c (join (str1 c) (y :: ys)))%string.
    rewrite split_at by assumption. now rewrite IH.
Qed.

Lemma parse_one_tuple (p : string * string) :
  let piece := (formEncode (fst p) ++ String "=" (formEncode (snd p)))%string in
  includes (str1 "&") piece = false
  /\ (if truthy piece then
        match splitFirst "=" piece with
        | Some (n, v) => [(formDecode n, formDecode v)]
        | None => [(formDecode piece, EmptyString)]
        end
      else []) = [decoded p].
Proof.
  intros piece. split.
  - unfold piece. rewrite includes_app, includes_cons.
    now rewrite !formEncode_excludes by reflexivity.
  - assert (Ht : truthy piece = true).
    { unfold piece. destruct (formEncode (fst p)); reflexivity. }
    rewrite Ht. unfold piece.
    rewrite splitFirst_at by (now apply formEncode_excludes).
    unfold formDecode, decoded. now rewrite !formEncode_decodes.
Qed.

Lemma parse_pieces (l : list (string * string)) :
  flat_map
    (fun piece =>
       if truthy piece then
         match splitFirst "=" piece with
         | Some (n, v) => [(formDecode n, formDecode v)]
         | None => [(formDecode piece, EmptyString)]
         end
       else [])
    (map (fun p => (formEncode (fst p) ++ String "=" (formEncode (snd p)))%string) l)
  = map decoded l.
Proof.
  induction l as [|x xs IH]; [reflexivity|].
  cbn [map flat_map]. rewrite IH.
  now rewrite (proj2 (parse_one_tuple x)).
Qed.

(** Parsing a serialized list gives the list back, every name and value
    passed through the UTF-8 decoder. *)
Lemma parse_serialized (l : list (string * string)) :
  parseParams (serializeParams l) = map decoded l.
Proof.
  rewrite <- parse_pieces. unfold parseParams, serializeParams.
  destruct l as [|p l]; [reflexivity|].
  f_equal. cbn [map].
  match goal with
  | |- context [split ?c (join ?sep (?x :: ?xs))] =>
      change (split c (join sep (x :: xs))) with (split c (join (str1 c) (x :: xs)));
      rewrite (split_join c x xs)
  end.
  - reflexivity.
  - apply Forall_forall. intros piece Hin.
    change (In piece (map (fun p => (formEncode (fst p)
                                     ++ String "=" (formEncode (snd p)))%string)
                          (p :: l))) in Hin.
    apply in_map_iff in Hin.
    destruct Hin as [x [<- _]]. apply (proj1 (parse_one_tuple x)).
Qed.

(** ** The UTF-8 decoder is idempotent *)

Lemma utf8Text_fixes_well_formed (s : string) : WellFormed s -> utf8Text s = s.
Proof.
  induction 1; cbn [utf8Text];
    repeat match goal with H : _ = _ |- _ => rewrite H; clear H end; reflexivity.
Qed.

Lemma WellFormed_replacement (t : string) :
  WellFormed t -> WellFormed (replacement ++ t).
Proof. intros H. apply WellFormed_3; try reflexivity. exact H. Qed.

Lemma utf8Text_well_formed_bounded (n : nat) :
  forall s, String.length s <= n -> WellFormed (utf8Text s).
Proof.
  induction n as [|n IH]; intros s Hlen.
  - destruct s; [constructor | simpl in Hlen; lia].
  - assert (IH' : forall t, String.length t < String.length s ->
                            WellFormed (utf8Text t))
      by (intros t Ht; apply IH; lia).
    clear IH Hlen.
    destruct s as [|a r1]; [constructor|].
    cbn [utf8Text].
    repeat match goal with
    | |- WellFormed (if ?c then _ else _) => destruct c eqn:?
    | |- WellFormed (match ?r with EmptyString => _ | String _ _ => _ end) =>
        destruct r
    end;
    first
      [ apply (WellFormed_replacement EmptyString); constructor
      | apply WellFormed_replacement; apply IH'; simpl; lia
      | constructor; try assumption; apply IH'; simpl; lia ].
Qed.

Lemma utf8Text_idempotent (s : string) : utf8Text (utf8Text s) = utf8Text s.
Proof.
  apply utf8Text_fixes_well_formed.
  apply (utf8Text_well_formed_bounded (String.length s)). lia.
Qed.


(** ** Operations on the list of a [URLSearchParams] object *)

Lemma without_cons (name : string) (p : string * string) (l : list (string * string)) :
  without name (p :: l)
  = if String.eqb (fst p) name then without name l else p :: without name l.
Proof. unfold without. simpl. now destruct (String.eqb (fst p) name). Qed.

Lemma without_idempotent (name : string) (l : list (string * string)) :
  without name (without name l) = without name l.
Proof.
  induction l as [|p l IH]; [reflexivity|].
  rewrite without_cons. destruct (String.eqb (fst p) name) eqn:E; [exact IH|].
  now rewrite without_cons, E, IH.
Qed.

Lemma without_comm (a b : string) (l : list (string * string)) :
  without a (without b l) = without b (without a l).
Proof.
  induction l as [|p l IH]; [reflexivity|].
  rewrite !without_cons.
  destruct (String.eqb (fst p) a) eqn:Ea; destruct (String.eqb (fst p) b) eqn:Eb;
    rewrite ?without_cons, ?Ea, ?Eb, IH; reflexivity.
Qed.

Lemma without_setFirst (a name value : string) (l : list (string * string)) :
  String.eqb name a = false ->
  without a (setFirst name value l) = setFirst name value (without a l).
Proof.
  intros Hne. induction l as [|p l IH].
  - cbn [setFirst]. rewrite without_cons. cbn [fst]. now rewrite Hne.
  - cbn [setFirst]. rewrite (without_cons a p l).
    destruct (String.eqb (fst p) name) eqn:E.
    + assert (Ea : String.eqb (fst p) a = false).
      { apply String.eqb_eq in E. now rewrite E. }
      rewrite Ea. cbn [setFirst]. rewrite E, without_cons. cbn [fst].
      now rewrite Hne, without_comm.
    + rewrite without_cons.
      destruct (String.eqb (fst p) a) eqn:Ea; [exact IH|].
      cbn [setFirst]. now rewrite E, IH.
Qed.

Lemma setFirst_idempotent (name value : string) (l : list (string * string)) :
  setFirst name value (setFirst name value l) = setFirst name value l.
Proof.
  induction l as [|p l IH].
  - simpl. now rewrite String.eqb_refl.
  - cbn [setFirst]. destruct (String.eqb (fst p) name) eqn:E.
    + cbn [setFirst fst]. rewrite String.eqb_refl.
      now rewrite without_idempotent.
    + cbn [setFirst]. now rewrite E, IH.
Qed.

Lemma getAll_cons (name : string) (p : string * string) (l : list (string * string)) :
  getAll name (p :: l)
  = if String.eqb (fst p) name then snd p :: getAll name l else getAll name l.
Proof. unfold getAll. simpl. now destruct (String.eqb (fst p) name). Qed.

Lemma getAll_without (name : string) (l : list (string * string)) :
  getAll name (without name l) = [].
Proof.
  induction l as [|p l IH]; [reflexivity|].
  rewrite without_cons. destruct (String.eqb (fst p) name) eqn:E; [exact IH|].
  now rewrite getAll_cons, E.
Qed.

Lemma getAll_without_other (a b : string) (l : list (string * string)) :
  getAll a l = [] -> getAll a (without b l) = [].
Proof.
  induction l as [|p l IH]; [reflexivity|].
  rewrite getAll_cons, without_cons.
  destruct (String.eqb (fst p) a) eqn:E; [discriminate|].
  intros H. destruct (String.eqb (fst p) b); [now apply IH|].
  rewrite getAll_cons, E. now apply IH.
Qed.

Lemma getAll_setFirst (name value : string) (l : list (string * string)) :
  getAll name (setFirst name value l) = [value].
Proof.
  induction l as [|p l IH].
  - cbn [setFirst]. rewrite getAll_cons. cbn [fst snd]. now rewrite String.eqb_refl.
  - cbn [setFirst]. destruct (String.eqb (fst p) name) eqn:E.
    + rewrite getAll_cons. cbn [fst snd].
      now rewrite String.eqb_refl, getAll_without.
    + now rewrite getAll_cons, E.
Qed.

Lemma getAll_setFirst_other (a name value : string) (l : list (string * string)) :
  String.eqb name a = false ->
  getAll a l = [] -> getAll a (setFirst name value l) = [].
Proof.
  intros Hne. induction l as [|p l IH].
  - intros _. cbn [setFirst]. rewrite getAll_cons. cbn [fst]. now rewrite Hne.
  - rewrite getAll_cons. destruct (String.eqb (fst p) a) eqn:E; [discriminate|].
    intros H. cbn [setFirst].
    destruct (String.eqb (fst p) name).
    + rewrite getAll_cons. cbn [fst]. rewrite Hne. now apply getAll_without_other.
    + rewrite getAll_cons, E. now apply IH.
Qed.

(** ** URL Normalizer *)

Lemma truthy_app (s t : string) : truthy s = true -> truthy (s ++ t) = true.
Proof. now destruct s. Qed.

Lemma serializeParams_truthy (p : string * string) (l : list (string * string)) :
  truthy (serializeParams (p :: l)) = true.
Proof.
  unfold serializeParams. cbn [map].
  assert (H : forall x, truthy (formEncode (fst x) ++ String "=" (formEncode (snd x))) = true)
    by (intros x; destruct (formEncode (fst x)); reflexivity).
  destruct l as [|q l]; [apply H|].
  cbn [map]. unfold join. cbn [String.concat]. apply truthy_app, H.
Qed.

Lemma setFirst_cons (name value : string) (l : list (string * string)) :
  exists p l', setFirst name value l = p :: l'.
Proof.
  destruct l as [|p l]; [now eexists; eexists|].
  cbn [setFirst]. destruct (String.eqb (fst p) name); now eexists; eexists.
Qed.

Lemma cleanList_cons (l : list (string * string)) :
  exists p l', cleanList l = p :: l'.
Proof. apply setFirst_cons. Qed.

Section Normalizer.

Variable rt : Runtime.

Lemma update_params (u : URL) (l : list (string * string)) :
  params (update rt u l) = l.
Proof.
  unfold update. destruct (truthy (serializeParams l)); [reflexivity|].
  now destruct (fragment u).
Qed.

Lemma update_fragment (u : URL) (l : list (string * string)) :
  fragment (url (update rt u l)) = fragment u.
Proof.
  unfold update. destruct (truthy (serializeParams l)); [reflexivity|].
  now destruct (fragment u).
Qed.

Lemma update_query (u : URL) (p : string * string) (l : list (string * string)) :
  url (update rt u (p :: l))
  = mkURL (beforeQuery u) (Some (serializeParams (p :: l))) (fragment u).
Proof. unfold update. now rewrite serializeParams_truthy. Qed.

Lemma update_same (u : URL) (l : list (string * string)) :
  l <> [] -> query u = Some (serializeParams l) -> update rt u l = mkObject u l.
Proof.
  intros Hne Hq. destruct l as [|p l]; [congruence|].
  unfold update. rewrite serializeParams_truthy.
  destruct u as [b q f]. simpl in *. now rewrite Hq.
Qed.

Lemma cleanURL_params (u : URL) :
  params (cleanURL rt u) = cleanList (params (newObject u)).
Proof.
  unfold cleanURL, setParam, deleteParam. now rewrite !update_params.
Qed.

Lemma cleanURL_query (u : URL) :
  query (url (cleanURL rt u))
  = Some (serializeParams (cleanList (params (newObject u)))).
Proof.
  unfold cleanURL, setParam, deleteParam. rewrite !update_params.
  fold (cleanList (params (newObject u))).
  destruct (cleanList_cons (params (newObject u))) as [p [l' ->]].
  now rewrite update_query.
Qed.

Lemma cleanURL_reachable (h : string) (u : URL) :
  parseURL rt h = Some u -> Reachable rt (url (cleanURL rt u)).
Proof.
  intros H. unfold cleanURL, setParam, deleteParam.
  repeat apply Reachable_updated. simpl. now apply Reachable_parsed with h.
Qed.

End Normalizer.

Lemma utf8Text_idem_pair (a b : string) :
  decoded (utf8Text a, utf8Text b) = (utf8Text a, utf8Text b).
Proof. unfold decoded. simpl. now rewrite !utf8Text_idempotent. Qed.

Lemma parseParams_settled (q : string) : Settled (parseParams q).
Proof.
  unfold Settled, parseParams. induction (split "&" q) as [|piece ps IH];
    [constructor|].
  cbn [flat_map]. apply Forall_app. split; [|exact IH].
  destruct (truthy piece); [|constructor].
  destruct (splitFirst "=" piece) as [[n v]|]; constructor; try constructor;
    unfold formDecode.
  - apply utf8Text_idem_pair.
  - apply (utf8Text_idem_pair _ EmptyString).
Qed.

Lemma newObject_settled (u : URL) : Settled (params (newObject u)).
Proof.
  unfold newObject. simpl. destruct (query u); [apply parseParams_settled|constructor].
Qed.

Lemma without_settled (name : string) (l : list (string * string)) :
  Settled l -> Settled (without name l).
Proof.
  unfold Settled, without. rewrite !Forall_forall. intros H p Hin.
  apply filter_In in Hin. now apply H.
Qed.

Lemma setFirst_settled (name value : string) (l : list (string * string)) :
  decoded (name, value) = (name, value) -> Settled l -> Settled (setFirst name value l).
Proof.
  intros Hnv. unfold Settled. induction l as [|p l IH]; intros H.
  - now constructor.
  - inversion H; subst. cbn [setFirst]. destruct (String.eqb (fst p) name).
    + constructor; [assumption | now apply without_settled].
    + constructor; [assumption | now apply IH].
Qed.

Lemma cleanList_settled (l : list (string * string)) :
  Settled l -> Settled (cleanList l).
Proof.
  intros H. apply setFirst_settled; [reflexivity|].
  now apply without_settled, without_settled.
Qed.

Lemma settled_map (l : list (string * string)) : Settled l -> map decoded l = l.
Proof.
  induction 1 as [|p l Hp _ IH]; [reflexivity|]. simpl. now rewrite Hp, IH.
Qed.

Lemma cleanList_idempotent (l : list (string * string)) :
  cleanList (cleanList l) = cleanList l.
Proof.
  unfold cleanList.
  rewrite (without_setFirst "psc") by reflexivity.
  rewrite (without_setFirst "ref_") by reflexivity.
  rewrite setFirst_idempotent.
  rewrite (without_comm "psc" "ref_").
  now rewrite !without_idempotent.
Qed.

Lemma cleanList_params (l : list (string * string)) :
  getAll "psc" (cleanList l) = [] /\ getAll "ref_" (cleanList l) = []
  /\ getAll "th" (cleanList l) = ["1"].
Proof.
  unfold cleanList. split; [|split].
  - apply getAll_setFirst_other; [reflexivity|].
    rewrite without_comm. apply getAll_without.
  - apply getAll_setFirst_other; [reflexivity|]. apply getAll_without.
  - apply getAll_setFirst.
Qed.

(** Reading back the query of a cleaned URL gives the list of its object. *)
Lemma cleanURL_reads_back (rt : Runtime) (u : URL) :
  params (newObject (url (cleanURL rt u))) = cleanList (params (newObject u)).
Proof.
  unfold newObject at 1. cbn [params]. rewrite cleanURL_query, parse_serialized.
  apply settled_map, cleanList_settled, newObject_settled.
Qed.

(** C3.  When the normalizer succeeds, the URL it serializes has a query
    whose tuples, read back by the urlencoded parser, hold no [psc], no
    [ref_] and exactly one [th], of value [1]. *)
Theorem normalized_link_query (rt : Runtime) (h s : string) :
  normalizeLink rt h = Some s ->
  exists u l,
    parseURL rt h = Some u
    /\ s = href (url (cleanURL rt u))
    /\ query (url (cleanURL rt u)) = Some (serializeParams l)
    /\ params (newObject (url (cleanURL rt u))) = l
    /\ getAll "psc" l = [] /\ getAll "ref_" l = [] /\ getAll "th" l = ["1"].
Proof.
  unfold normalizeLink. destruct (parseURL rt h) as [u|] eqn:E; [|discriminate].
  intros H. injection H as <-.
  exists u, (cleanList (params (newObject u))).
  split; [reflexivity|]. split; [reflexivity|].
  split; [apply cleanURL_query|]. split; [apply cleanURL_reads_back|].
  apply cleanList_params.
Qed.

(** C4.  On a runtime whose URL parser reads a serialized URL record back
    as the same record, normalizing the output of a successful
    normalization gives that output again. *)
Theorem normalizeLink_idempotent (rt : Runtime) (h s : string) :
  RoundTrip rt -> normalizeLink rt h = Some s -> normalizeLink rt s = Some s.
Proof.
  intros Hrt. unfold normalizeLink at 1.
  destruct (parseURL rt h) as [u|] eqn:E; [|discriminate].
  intros H. injection H as <-.
  unfold normalizeLink.
  rewrite (Hrt _ (cleanURL_reachable rt h u E)).
  f_equal. f_equal.
  set (u' := url (cleanURL rt u)).
  set (cl := cleanList (params (newObject u))).
  assert (Hq : query u' = Some (serializeParams cl)) by apply cleanURL_query.
  assert (Hp : params (newObject u') = cl) by apply cleanURL_reads_back.
  assert (Hne : cl <> []).
  { unfold cl. destruct (cleanList_cons (params (newObject u))) as [p [l' ->]].
    discriminate. }
  assert (H1 : without "psc" cl = cl).
  { unfold cl, cleanList. rewrite without_setFirst by reflexivity.
    now rewrite (without_comm "psc" "ref_"), without_idempotent. }
  assert (H2 : without "ref_" cl = cl).
  { unfold cl, cleanList. rewrite without_setFirst by reflexivity.
    now rewrite without_idempotent. }
  assert (H3 : setFirst "th" "1" cl = cl) by apply setFirst_idempotent.
  unfold cleanURL, setParam, deleteParam.
  assert (Ho : newObject u' = mkObject u' cl).
  { unfold newObject in *. simpl in Hp. now rewrite Hp. }
  rewrite Ho. cbn [url params]. rewrite H1, (update_same rt u' cl Hne Hq).
  cbn [url params]. rewrite H2, (update_same rt u' cl Hne Hq).
  cbn [url params]. rewrite H3, (update_same rt u' cl Hne Hq).
  reflexivity.
Qed.

(** ** The reference runtime obeys the round-trip law *)

Lemma afterPrefix_app (p s : string) : afterPrefix p (p ++ s) = Some s.
Proof.
  induction p as [|a p IH]; [reflexivity|].
  simpl. now rewrite Ascii.eqb_refl.
Qed.

Lemma allChars_join (P : ascii -> bool) (sep : string) (l : list string) :
  allChars P sep = true -> Forall (fun s => allChars P s = true) l ->
  allChars P (join sep l) = true.
Proof.
  intros Hsep. induction 1 as [|x l Hx Hl IH]; [reflexivity|].
  unfold join in *. cbn [String.concat]. destruct l as [|y l]; [exact Hx|].
  now rewrite !allChars_app, Hx, Hsep, IH.
Qed.

Lemma serializeParams_chars (l : list (string * string)) :
  allChars Reference.queryChar (serializeParams l) = true.
Proof.
  assert (Hq : forall s, allChars Reference.queryChar (formEncode s) = true).
  { intros s. apply (allChars_impl _ Reference.queryChar _) with (2 := formEncode_chars s).
    intros a H. unfold Reference.queryChar.
    rewrite !orb_true_iff in *. tauto. }
  unfold serializeParams. apply allChars_join; [reflexivity|].
  apply Forall_forall. intros piece Hin. apply in_map_iff in Hin.
  destruct Hin as [p [<- _]].
  rewrite allChars_app. cbn [allChars]. now rewrite !Hq.
Qed.

Lemma parse_plain (h : string) (u : URL) : Reference.parse h = Some u -> Plain u.
Proof.
  unfold Reference.parse.
  destruct (Reference.cut "#" _) as [pq frag].
  destruct (Reference.cut "?" pq) as [p q].
  destruct (Reference.pathOk p && Reference.optChars q && Reference.optChars frag) eqn:E;
    [|discriminate].
  intros H. injection H as <-. exists p. cbn.
  rewrite !andb_true_iff in E. tauto.
Qed.

Lemma reachable_plain (u : URL) : Reachable Reference.runtime u -> Plain u.
Proof.
  induction 1 as [h u H|u l _ [p [Hb [Hp [Hq Hf]]]]].
  - now apply parse_plain with h.
  - exists p. unfold update.
    destruct (truthy (serializeParams l)); cbn.
    + repeat split; try assumption. apply serializeParams_chars.
    + destruct (fragment u) eqn:E; cbn; rewrite ?E; repeat split; assumption.
Qed.

Lemma pathChar_plain (c : ascii) (p : string) :
  Reference.pathChar c = false -> Reference.pathOk p = true ->
  includes (str1 c) p = false.
Proof.
  intros Hc. destruct p as [|a r]; [reflexivity|]. unfold Reference.pathOk.
  rewrite !andb_true_iff. intros [[Ha _] Hr]. apply Ascii.eqb_eq in Ha. subst a.
  rewrite includes_cons, (allChars_excludes _ _ _ Hc Hr), orb_false_r.
  apply Ascii.eqb_neq. intros ->. discriminate.
Qed.

Lemma append_assoc (a b c : string) : ((a ++ b) ++ c = a ++ (b ++ c))%string.
Proof. induction a as [|x a IH]; [reflexivity|]. simpl. now rewrite IH. Qed.

Lemma append_nil_r (a : string) : (a ++ EmptyString)%string = a.
Proof. induction a as [|x a IH]; [reflexivity|]. simpl. now rewrite IH. Qed.

Lemma cut_at (c : ascii) (l : string) (r : option string) :
  includes (str1 c) l = false ->
  Reference.cut c (l ++ match r with Some s => String c s | None => EmptyString end)
  = (l, r).
Proof.
  intros H. unfold Reference.cut. destruct r as [s|].
  - now rewrite splitFirst_at.
  - now rewrite append_nil_r, splitFirst_none.
Qed.

Lemma plain_round_trip (u : URL) : Plain u -> Reference.parse (href u) = Some u.
Proof.
  intros [p [Hb [Hp [Hq Hf]]]]. destruct u as [b q f].
  cbv [beforeQuery query fragment] in Hb, Hq, Hf. subst b.
  unfold Reference.parse, href. cbv [beforeQuery query fragment].
  rewrite append_assoc, afterPrefix_app, <- append_assoc.
  assert (Hpq : includes (str1 "#")
                  (p ++ match q with Some s => String "?" s | None => EmptyString end)
                = false).
  { rewrite includes_app, (pathChar_plain "#" p) by (reflexivity || assumption).
    destruct q as [s|]; [|reflexivity].
    rewrite includes_cons.
    now rewrite (allChars_excludes Reference.queryChar "#" s eq_refl Hq). }
  rewrite (cut_at "#" _ f Hpq).
  rewrite (cut_at "?" p q) by (apply pathChar_plain; [reflexivity | assumption]).
  now rewrite Hp, Hq, Hf.
Qed.

Lemma reference_round_trip : RoundTrip Reference.runtime.
Proof. intros u H. apply plain_round_trip, reachable_plain, H. Qed.

(** C4 on the reference runtime. *)
Lemma normalizeLink_idempotent_witness :
  normalizeLink Reference.runtime "https://www.amazon.com/dp/B000X?a=b+c&th=1#top"
  = Some "https://www.amazon.com/dp/B000X?a=b+c&th=1#top".
Proof.
  exact (normalizeLink_idempotent Reference.runtime
           "/dp/B000X?psc=1&a=b%20c&th=2&ref_=abc&th=3#top"
           "https://www.amazon.com/dp/B000X?a=b+c&th=1#top"
           reference_round_trip eq_refl).
Defined.

(** C3 on the reference runtime. *)
Lemma normalized_link_query_witness :
  exists u l,
    parseURL Reference.runtime "/dp/B000X?psc=1&ref_=abc" = Some u
    /\ "https://www.amazon.com/dp/B000X?th=1" = href (url (cleanURL Reference.runtime u))
    /\ query (url (cleanURL Reference.runtime u)) = Some (serializeParams l)
    /\ params (newObject (url (cleanURL Reference.runtime u))) = l
    /\ getAll "psc" l = [] /\ getAll "ref_" l = [] /\ getAll "th" l = ["1"].
Proof.
  exact (normalized_link_query Reference.runtime "/dp/B000X?psc=1&ref_=abc"
           "https://www.amazon.com/dp/B000X?th=1" eq_refl).
Defined.

(** * Further properties *)

(** ** CSV fields and rows *)

Lemma replaceAll_dquote_inj (s1 s2 : string) :
  replaceAll dquote (String dquote (str1 dquote)) s1
  = replaceAll dquote (String dquote (str1 dquote)) s2 -> s1 = s2.
Proof.
  revert s2. induction s1 as [|a s1 IH]; intros [|b s2]; simpl; try reflexivity.
  - destruct (Ascii.eqb b dquote); discriminate.
  - destruct (Ascii.eqb a dquote); discriminate.
  - destruct (Ascii.eqb a dquote) eqn:Ea; destruct (Ascii.eqb b dquote) eqn:Eb; simpl.
    + apply Ascii.eqb_eq in Ea, Eb. subst. intros H. injection H as H.
      now rewrite (IH _ H).
    + intros H. injection H as H1 H2. apply Ascii.eqb_neq in Eb.
      now elim Eb.
    + intros H. injection H as H1 H2. apply Ascii.eqb_neq in Ea.
      now elim Ea.
    + intros H. injection H as -> H. now rewrite (IH _ H).
Qed.

Lemma append_inj_l (a b c : string) : (a ++ c = b ++ c)%string -> a = b.
Proof.
  intros H. apply (f_equal list_ascii_of_string) in H.
  rewrite !list_ascii_app in H. apply app_inv_tail in H.
  rewrite <- (string_of_list_ascii_of_string a), <- (string_of_list_ascii_of_string b).
  now rewrite H.
Qed.

Lemma escapeCSV_cases (field : string) :
  (special field = false /\ escapeCSV field = field)
  \/ (special field = true
      /\ escapeCSV field
         = String dquote (replaceAll dquote (String dquote (str1 dquote)) field
                          ++ str1 dquote)).
Proof.
  unfold escapeCSV, special.
  change (includes "," field) with (includes (str1 comma) field).
  destruct (includes (str1 dquote) field || includes (str1 comma) field
            || includes (str1 newline) field); [right | left]; split; reflexivity.
Qed.

Lemma special_no_dquote (field : string) :
  special field = false -> includes (str1 dquote) field = false.
Proof. unfold special. rewrite !orb_false_iff. tauto. Qed.






(** X1.  [escapeCSV] never writes two different fields the same way: the
    encodings of two fields are equal exactly when the fields are. *)
Theorem escapeCSV_injective (f1 f2 : string) :
  escapeCSV f1 = escapeCSV f2 <-> f1 = f2.
Proof.
  split; [|now intros ->].
  destruct (escapeCSV_cases f1) as [[S1 ->]|[S1 ->]];
    destruct (escapeCSV_cases f2) as [[S2 ->]|[S2 ->]]; intros H.
  - exact H.
  - apply special_no_dquote in S1. rewrite H, includes_cons in S1.
    now rewrite Ascii.eqb_refl in S1.
  - apply special_no_dquote in S2. rewrite <- H, includes_cons in S2.
    now rewrite Ascii.eqb_refl in S2.
  - injection H as H. apply append_inj_l in H. now apply replaceAll_dquote_inj.
Qed.


Lemma truthy_append_cons (a : string) (c : ascii) (b : string) :
  truthy (a ++ String c b) = true.
Proof. now destruct a. Qed.

Lemma normalizeLink_truthy (rt : Runtime) (h p : string) :
  normalizeLink rt h = Some p -> truthy p = true.
Proof.
  unfold normalizeLink. destruct (parseURL rt h) as [u|]; [|discriminate].
  intros H. injection H as <-. unfold href. rewrite cleanURL_query.
  apply truthy_append_cons.
Qed.

Lemma normalizeLink_none (rt : Runtime) (h : string) :
  normalizeLink rt h = None <-> parseURL rt h = None.
Proof.
  unfold normalizeLink. destruct (parseURL rt h); split; congruence.
Qed.

Lemma urlRegexTest_truthy (t : string) : urlRegexTest t = true -> truthy t = true.
Proof. destruct t; [discriminate | reflexivity]. Qed.

Lemma filter_truthy_nonempty (l : list string) :
  Forall (fun o => o <> EmptyString) (filter truthy l).
Proof.
  apply Forall_forall. intros o Hin. apply filter_In in Hin.
  now apply truthy_true.
Qed.

(** X3.  In the extracted batch every option is non-empty; an item that
    carries a non-Amazon link is a bare URL entry (no name, manufacturer,
    options or product link, and its link passes the URL test); a
    non-empty product link is an output of the normalizer. *)
Theorem scraped_items_shape (rt : Runtime) (els : list ItemElement) :
  Forall
    (fun it =>
       Forall (fun o => o <> EmptyString) (options it)
       /\ (nonAmazonLink it <> EmptyString ->
           itemName it = EmptyString /\ manufacturer it = EmptyString
           /\ options it = [] /\ productLink it = EmptyString
           /\ urlRegexTest (nonAmazonLink it) = true)
       /\ (productLink it <> EmptyString ->
           exists h, normalizeLink rt h = Some (productLink it)))
    (scrapeItems rt els).
Proof.
  apply Forall_forall. intros it Hin. unfold scrapeItems in Hin.
  apply filter_In in Hin. destruct Hin as [Hin _].
  apply in_map_iff in Hin. destruct Hin as [el [<- _]].
  unfold scrapeItem. destruct (nonAsin el).
  - destruct (nameSpan el) as [t|].
    + destruct (urlRegexTest (trim t)) eqn:E; cbn;
        (split; [constructor|]); (split; [|intros H; now elim H]).
      * intros _. now rewrite E.
      * intros H. now elim H.
    + cbn. split; [constructor|]. split; intros H; now elim H.
  - cbn. split; [apply filter_truthy_nonempty|]. split; [intros H; now elim H|].
    destruct (nameAnchor el) as [[t [h|]]|]; try (intros H; now elim H).
    destruct (truthy h); [|intros H; now elim H].
    destruct (normalizeLink rt h) as [p|] eqn:E; [|intros H; now elim H].
    intros _. now exists h.
Qed.

(** X4.  The extraction loop drops an entry exactly when it has no usable
    name element: for a NON_ASIN entry, no name span or a blank one; for a
    catalog entry, no name anchor, or a blank one whose href is missing,
    empty or rejected by the URL parser.  Byline and options never keep an
    entry. *)
Theorem entry_dropped_iff (rt : Runtime) (el : ItemElement) :
  retained (scrapeItem rt el) = false <-> droppedEntry rt el.
Proof.
  unfold droppedEntry, scrapeItem, retained. destruct (nonAsin el).
  - destruct (nameSpan el) as [t|]; [|cbn; tauto].
    destruct (urlRegexTest (trim t)) eqn:E; cbn;
      rewrite ?orb_false_r; [|apply truthy_false].
    rewrite (urlRegexTest_truthy _ E). split; [discriminate|].
    intros H. rewrite H in E. discriminate.
  - cbn. rewrite orb_false_r, orb_false_iff, !truthy_false.
    destruct (nameAnchor el) as [[t h]|]; [|tauto].
    destruct h as [h|]; [|tauto].
    destruct (truthy h) eqn:Eh.
    + destruct (normalizeLink rt h) as [p|] eqn:En.
      * split.
        -- intros [_ Hp]. apply normalizeLink_truthy in En. subst p. discriminate.
        -- intros [_ [Hh|Hp]].
           ++ subst h. discriminate.
           ++ apply normalizeLink_none in Hp. congruence.
      * apply normalizeLink_none in En. tauto.
    + apply truthy_false in Eh. tauto.
Qed.

Lemma sanitizeName_chars (s : string) : allChars nameChar (sanitizeName s) = true.
Proof.
  induction s as [|a s IH]; [reflexivity|].
  cbn [sanitizeName]. destruct (isAlnum a) eqn:Ea.
  - cbn [allChars]. unfold nameChar at 1. now rewrite Ea, IH.
  - destruct (cont a); [exact IH|].
    destruct (between 240 255 a); cbn [allChars]; now rewrite IH.
Qed.

Lemma wishlistName_chars (v : Visit) : allChars nameChar (wishlistName v) = true.
Proof.
  unfold wishlistName. destruct (listNameText v); [apply sanitizeName_chars|reflexivity].
Qed.

Lemma processWishlist_saved (rt : Runtime) (fuel : nat) (v : Visit)
  (f d : string) (s : list string) :
  processWishlist rt fuel v = Some (Saved f d s) ->
  f = (wishlistName v ++ ".csv")%string /\ wishlistName v <> "wishlist"
  /\ captchaExits v = false.
Proof.
  unfold processWishlist. destruct (captchaExits v); [discriminate|].
  destruct (String.eqb (wishlistName v) "wishlist") eqn:E; [discriminate|].
  destruct (detect fuel v); [|discriminate].
  intros H. injection H as <- _ _. apply String.eqb_neq in E. auto.
Qed.


(** X7.  The list name used for the file holds only ASCII letters,
    digits and underscores, and a file that is written is named by it,
    with the suffix [.csv]; it is never the default name [wishlist]. *)
Theorem saved_file_name_is_safe (rt : Runtime) (fuel : nat) (v : Visit) :
  allChars nameChar (wishlistName v) = true
  /\ forall f d s,
       processWishlist rt fuel v = Some (Saved f d s) ->
       f = (wishlistName v ++ ".csv")%string /\ wishlistName v <> "wishlist".
Proof.
  split; [apply wishlistName_chars|].
  intros f d s H. apply processWishlist_saved in H. tauto.
Qed.

(** ** The URL prompt, continued *)

Lemma dropSpace_from (c : ascii) (backwards : bool) (s r : string) :
  dropSpace backwards s = Some r ->
  includes (str1 c) r = true -> includes (str1 c) s = true.
Proof.
  intros Hd Hr. destruct s as [|a r1]; [discriminate|]. simpl in Hd.
  rewrite includes_cons.
  destruct (ws1 a); [injection Hd as <-; now rewrite Hr, orb_true_r|].
  destruct r1 as [|b r2]; [discriminate|]. rewrite includes_cons.
  destruct (if backwards then ws2 b a else ws2 a b);
    [injection Hd as <-; now rewrite Hr, !orb_true_r|].
  destruct r2 as [|d r3]; [discriminate|]. rewrite includes_cons.
  destruct (if backwards then ws3 d b a else ws3 a b d); [|discriminate].
  injection Hd as <-. now rewrite Hr, !orb_true_r.
Qed.

Lemma dropSpaces_from (c : ascii) (backwards : bool) (fuel : nat) (s : string) :
  includes (str1 c) (dropSpaces fuel backwards s) = true ->
  includes (str1 c) s = true.
Proof.
  revert s. induction fuel as [|fuel IH]; intros s; simpl; [trivial|].
  destruct (dropSpace backwards s) as [r|] eqn:E; [|trivial].
  intros H. apply (dropSpace_from c backwards s r E). now apply IH.
Qed.

(** [trim] adds no character. *)
Lemma trim_from (c : ascii) (s : string) :
  includes (str1 c) (trim s) = true -> includes (str1 c) s = true.
Proof.
  unfold trim, trimEnd, trimStart. rewrite includes_rev. intros H.
  apply dropSpaces_from in H. rewrite includes_rev in H.
  now apply dropSpaces_from in H.
Qed.

Lemma split_pieces (c : ascii) (s : string) :
  Forall (fun p => includes (str1 c) p = false) (split c s).
Proof.
  induction s as [|a s IH]; [repeat constructor|].
  cbn [split]. destruct (Ascii.eqb a c) eqn:E.
  - constructor; [reflexivity | exact IH].
  - destruct (split c s) as [|p ps].
    + repeat constructor. change (str1 a) with (String a EmptyString).
      rewrite includes_cons, Ascii.eqb_sym, E. reflexivity.
    + inversion IH; subst. constructor; [|assumption].
      rewrite includes_cons, Ascii.eqb_sym, E. assumption.
Qed.

Lemma split_length (c : ascii) (s : string) :
  List.length (split c s) = S (occurrences c s).
Proof.
  induction s as [|a s IH]; [reflexivity|].
  cbn [split occurrences]. destruct (Ascii.eqb a c).
  - simpl. now rewrite IH.
  - destruct (split c s); simpl in *; lia.
Qed.

Lemma trimmed_pieces (s : string) :
  Forall (fun u => includes (str1 comma) u = false) (map trim (split comma s)).
Proof.
  apply Forall_map. eapply Forall_impl; [|apply split_pieces].
  intros p Hp. cbv beta in *.
  destruct (includes (str1 comma) (trim p)) eqn:E; [|reflexivity].
  apply trim_from in E. congruence.
Qed.

(** X8.  No kept URL holds a comma, and at most one URL is kept per
    comma-separated piece of the answer. *)
Theorem kept_urls_hold_no_comma (inputUrl : string) :
  Forall (fun u => includes (str1 comma) u = false) (wishlistUrls inputUrl)
  /\ List.length (wishlistUrls inputUrl) <= S (occurrences comma inputUrl).
Proof.
  rewrite wishlistUrls_unfold. split.
  - apply Forall_forall. intros u Hu. apply filter_In in Hu.
    pose proof (trimmed_pieces inputUrl) as H. rewrite Forall_forall in H.
    apply H, Hu.
  - etransitivity; [apply filter_length_le|].
    now rewrite length_map, split_length.
Qed.

(** X9.  In [scrape_amazon.ts] the URL list is never empty: a blank
    answer gives the default URL alone, any other answer gives every
    trimmed piece, unfiltered, one more than the answer has commas. *)
Theorem urls_or_default_never_empty (inputUrl : string) :
  wishlistUrlsOrDefault inputUrl <> []
  /\ (trim inputUrl = EmptyString ->
      wishlistUrlsOrDefault inputUrl
      = ["https://www.amazon.com/hz/wishlist/ls/QF7GGWSPEL1A"])
  /\ (trim inputUrl <> EmptyString ->
      wishlistUrlsOrDefault inputUrl = map trim (split "," inputUrl)
      /\ List.length (wishlistUrlsOrDefault inputUrl)
         = S (occurrences comma inputUrl)).
Proof.
  unfold wishlistUrlsOrDefault. destruct (truthy (trim inputUrl)) eqn:E.
  - apply truthy_true in E. assert (Hl := split_length comma inputUrl).
    split; [|split; [tauto|]].
    + change ","%char with comma. destruct (split comma inputUrl);
        [discriminate Hl | discriminate].
    + intros _. split; [reflexivity|]. now rewrite length_map.
  - apply truthy_false in E. split; [discriminate|]. split; [reflexivity|tauto].
Qed.

Lemma scrollLoop_spec (seen : nat -> bool) (remaining count : nat) :
  let r := scrollLoop seen remaining count in
  count <= fst r <= count + remaining
  /\ (forall k, count <= k < fst r -> seen k = false)
  /\ (snd r = true -> seen (fst r) = true /\ fst r < count + remaining)
  /\ (snd r = false -> fst r = count + remaining).
Proof.
  revert count. induction remaining as [|rem IH]; intros count; simpl.
  - split; [lia|]. split; [intros k Hk; lia|]. split; [discriminate|lia].
  - destruct (seen count) eqn:E; simpl.
    + split; [lia|]. split; [intros k Hk; lia|]. split; [|discriminate].
      intros _. split; [assumption | lia].
    + destruct (IH (S count)) as [H1 [H2 [H3 H4]]].
      split; [lia|]. split; [|split].
      * intros k Hk. destruct (Nat.eq_dec k count) as [->|Hne]; [assumption|].
        apply H2. lia.
      * intros Hs. destruct (H3 Hs). split; [assumption | lia].
      * intros Hs. rewrite (H4 Hs). lia.
Qed.

(** X10.  The first loop issues at most 30 scrolls; it reports the marker
    exactly when one of the first 30 checks sees it, stops at the first
    such check, and otherwise runs all 30; the detector's counters are
    those of this loop. *)
Theorem scroll_loop_stops_at_first_sighting (v : Visit) :
  let r := scrollLoop (endOfListSeen v) maxScrolls 0 in
  scrollsIssued r <= 30
  /\ (forall k, k < fst r -> endOfListSeen v k = false)
  /\ (snd r = true <-> exists k, k < 30 /\ endOfListSeen v k = true)
  /\ (snd r = true -> endOfListSeen v (fst r) = true /\ fst r < 30)
  /\ (snd r = false -> fst r = 30)
  /\ forall fuel d,
       detect fuel v = Some d ->
       attempts d = scrollsIssued r /\ scrollCount d = fst r
       /\ (flag d = Complete <-> snd r = true).
Proof.
  intros r.
  destruct (scrollLoop_spec (endOfListSeen v) maxScrolls 0) as [H1 [H2 [H3 H4]]].
  fold r in H1, H2, H3, H4. change (0 + maxScrolls) with 30 in *.
  assert (Hiss : scrollsIssued r <= 30).
  { unfold scrollsIssued. destruct (snd r) eqn:E; [|lia].
    destruct (H3 eq_refl). lia. }
  split; [exact Hiss|]. split; [intros k Hk; apply H2; lia|].
  split; [|split; [exact H3|split; [exact H4|]]].
  - split.
    + intros Hs. destruct (H3 Hs). now exists (fst r).
    + intros [k [Hk Hseen]]. destruct (snd r) eqn:E; [reflexivity|].
      rewrite (H2 k) in Hseen by (rewrite (H4 eq_refl); lia). discriminate.
  - intros fuel d. unfold detect. fold r. destruct (snd r) eqn:E.
    + destruct (stabilize fuel (stabilizeSamples v) 0 0 (stabilizeStart v));
        [|discriminate].
      intros H. injection H as <-. cbn. tauto.
    + intros H. injection H as <-. cbn. repeat split; congruence.
Qed.

(** X11.  When the marker element is found at every reading, the second
    loop ends only after a run of visible readings that reaches to the last
    one, with at least 10000 ms between the reading before the run (the
    start of the loop for a run from the first reading) and the last. *)
Theorem completion_needs_visible_run
  (samples : nat -> Sample) (start : Z) (fuel n : nat) (t : Z) :
  (forall j, present (samples j) = true) ->
  stabilize fuel samples 0 0 start = Some (n, t) ->
  exists j : nat, (j < n)%nat
    /\ (forall i, j <= i < n -> visible (samples i) = true)
    /\ (j = 0 \/ visible (samples (j - 1)) = false)
    /\ t = (now (samples (n - 1)%nat) - clockBefore start samples j)%Z
    /\ (10000 <= t)%Z.
Proof.
  intros Hp Hs.
  assert (H0 : 0%Z = (clockBefore start samples 0 - clockBefore start samples 0)%Z)
    by lia.
  assert (Hrun0 : forall i, 0 <= i < 0 -> visible (samples i) = true)
    by (intros i Hi; lia).
  destruct (stabilize_present_run samples start Hp fuel 0 0 0 n t
              (le_n 0) Hrun0 (or_introl eq_refl) H0 Hs)
    as [j [Hj [Hrun [Hb [Ht Hge]]]]].
  exists j. assert (j <> n) by (intros ->; lia).
    destruct n as [|n]; [lia|].
    replace (S n - 1) with n by lia. simpl in Ht.
    split; [lia|]. split; [exact Hrun|]. split; [exact Hb|].
    split; [exact Ht | exact Hge].
Qed.

(** X11 on the page whose marker stays visible. *)
Lemma completion_needs_visible_run_witness :
  exists j : nat, (j < 21)%nat
    /\ (forall i, j <= i < 21 ->
        visible (stabilizeSamples Scenario.fifthAttemptVisit i) = true)
    /\ (j = 0 \/ visible (stabilizeSamples Scenario.fifthAttemptVisit (j - 1)) = false)
    /\ 10000%Z
       = (now (stabilizeSamples Scenario.fifthAttemptVisit (21 - 1)%nat)
          - clockBefore 0 (stabilizeSamples Scenario.fifthAttemptVisit) j)%Z
    /\ (10000 <= 10000)%Z.
Proof.
  exact (completion_needs_visible_run
           (stabilizeSamples Scenario.fifthAttemptVisit) 0 21 21 10000
           (fun j => eq_refl) eq_refl).
Defined.

Lemma stabilize_hidden (samples : nat -> Sample) :
  (forall j, present (samples j) = false \/ visible (samples j) = false) ->
  forall fuel k t lastCheck,
    (t < 10000)%Z -> stabilize fuel samples k t lastCheck = None.
Proof.
  intros Hh. induction fuel as [|fuel IH]; intros k t lastCheck Ht; cbn [stabilize];
    apply Z.ltb_lt in Ht; rewrite Ht; [reflexivity|].
  apply Z.ltb_lt in Ht.
  destruct (present (samples k)) eqn:Ep; [|now apply IH].
  destruct (Hh k) as [H|H]; [congruence|]. rewrite H. apply IH. lia.
Qed.

(** X12.  When the marker was seen by the first loop and every later
    reading finds it missing or hidden, the second loop never ends: for
    every bound on the iterations the detector gives no result, so the
    list is never exported. *)
Theorem hidden_marker_never_completes (rt : Runtime) (v : Visit) (fuel : nat) :
  (exists k, k < 30 /\ endOfListSeen v k = true) ->
  (forall j, present (stabilizeSamples v j) = false
             \/ visible (stabilizeSamples v j) = false) ->
  detect fuel v = None
  /\ (processWishlist rt fuel v = None
      \/ processWishlist rt fuel v = Some (Exits 1)).
Proof.
  intros Hseen Hh.
  assert (Hd : detect fuel v = None).
  { unfold detect.
    destruct (scrollLoop_spec (endOfListSeen v) maxScrolls 0) as [_ [H2 [_ H4]]].
    destruct (snd (scrollLoop (endOfListSeen v) maxScrolls 0)) eqn:E.
    - now rewrite stabilize_hidden.
    - destruct Hseen as [k [Hk Hs]]. specialize (H4 eq_refl).
      rewrite (H2 k) in Hs by (rewrite H4; unfold maxScrolls; lia). discriminate. }
  split; [exact Hd|]. unfold processWishlist. rewrite Hd.
  destruct (captchaExits v); [now right|].
  destruct (String.eqb (wishlistName v) "wishlist"); [now right | now left].
Qed.

(** X12 on a page whose marker stays hidden. *)
Lemma hidden_marker_never_completes_witness :
  detect 1000 Hang.hiddenVisit = None
  /\ (processWishlist Reference.runtime 1000 Hang.hiddenVisit = None
      \/ processWishlist Reference.runtime 1000 Hang.hiddenVisit = Some (Exits 1)).
Proof.
  apply (hidden_marker_never_completes Reference.runtime Hang.hiddenVisit 1000).
  - exists 0. split; [lia | reflexivity].
  - intros j. right. reflexivity.
Defined.




Lemma getAll_without_ne (a b : string) (l : list (string * string)) :
  String.eqb b a = false -> getAll a (without b l) = getAll a l.
Proof.
  intros Hne. induction l as [|p l IH]; [reflexivity|].
  rewrite without_cons, getAll_cons.
  destruct (String.eqb (fst p) b) eqn:Eb.
  - apply String.eqb_eq in Eb. rewrite Eb, Hne. exact IH.
  - rewrite getAll_cons. now rewrite IH.
Qed.

Lemma getAll_setFirst_ne (a name value : string) (l : list (string * string)) :
  String.eqb name a = false -> getAll a (setFirst name value l) = getAll a l.
Proof.
  intros Hne. induction l as [|p l IH].
  - cbn [setFirst]. rewrite getAll_cons. cbn [fst]. now rewrite Hne.
  - cbn [setFirst]. destruct (String.eqb (fst p) name) eqn:E.
    + apply String.eqb_eq in E. rewrite !getAll_cons. cbn [fst].
      rewrite E, Hne. now apply getAll_without_ne.
    + now rewrite !getAll_cons, IH.
Qed.

Lemma without_setFirst_same (name value : string) (l : list (string * string)) :
  without name (setFirst name value l) = without name l.
Proof.
  induction l as [|p l IH].
  - cbn [setFirst]. rewrite without_cons. cbn [fst]. now rewrite String.eqb_refl.
  - cbn [setFirst]. rewrite (without_cons name p l).
    destruct (String.eqb (fst p) name) eqn:E.
    + rewrite without_cons. cbn [fst]. rewrite String.eqb_refl.
      apply without_idempotent.
    + now rewrite without_cons, E, IH.
Qed.

Lemma cleanURL_fragment (rt : Runtime) (u : URL) :
  fragment (url (cleanURL rt u)) = fragment u.
Proof.
  unfold cleanURL, setParam, deleteParam. now rewrite !update_fragment.
Qed.

(** X14.  The normalizer keeps the fragment and every query parameter
    other than [psc], [ref_] and [th], in order and with all its values. *)
Theorem normalizer_keeps_other_parameters (rt : Runtime) (h : string) (u : URL) :
  parseURL rt h = Some u ->
  let out := url (cleanURL rt u) in
  let before := params (newObject u) in
  let after := params (newObject out) in
  normalizeLink rt h = Some (href out)
  /\ fragment out = fragment u
  /\ without "th" after = without "th" (without "ref_" (without "psc" before))
  /\ forall name, name <> "psc" -> name <> "ref_" -> name <> "th" ->
       getAll name after = getAll name before.
Proof.
  intros Hp out before after.
  assert (Ha : after = cleanList before) by apply cleanURL_reads_back.
  split; [unfold normalizeLink; now rewrite Hp|].
  split; [apply cleanURL_fragment|]. rewrite Ha. unfold cleanList. split.
  - apply without_setFirst_same.
  - intros name H1 H2 H3.
    rewrite getAll_setFirst_ne by (apply String.eqb_neq; congruence).
    rewrite getAll_without_ne by (apply String.eqb_neq; congruence).
    apply getAll_without_ne. apply String.eqb_neq. congruence.
Qed.

(** X14 on the reference runtime. *)
Lemma normalizer_keeps_other_parameters_witness :
  let h := "/dp/B000X?b=2&psc=1&a=b%20c&th=2&ref_=abc&b=1&th=3#top" in
  let u := mkURL "https://www.amazon.com/dp/B000X"
                 (Some "b=2&psc=1&a=b%20c&th=2&ref_=abc&b=1&th=3") (Some "top") in
  let out := url (cleanURL Reference.runtime u) in
  let before := params (newObject u) in
  let after := params (newObject out) in
  normalizeLink Reference.runtime h = Some (href out)
  /\ fragment out = fragment u
  /\ without "th" after = without "th" (without "ref_" (without "psc" before))
  /\ forall name, name <> "psc" -> name <> "ref_" -> name <> "th" ->
       getAll name after = getAll name before.
Proof.
  exact (normalizer_keeps_other_parameters Reference.runtime
           "/dp/B000X?b=2&psc=1&a=b%20c&th=2&ref_=abc&b=1&th=3#top"
           (mkURL "https://www.amazon.com/dp/B000X"
                  (Some "b=2&psc=1&a=b%20c&th=2&ref_=abc&b=1&th=3") (Some "top"))
           eq_refl).
Defined.

(** ** [encodeURIComponent] and [decodeURIComponent] *)

Lemma readEscape_encoded (a : ascii) (t : string) :
  readEscape (percentEncodeByte a ++ t) = Some (a, t).
Proof. each_byte a; reflexivity. Qed.

Lemma unreserved_plain (a : ascii) :
  uriUnreserved a = true -> Ascii.eqb a "%" = false /\ between 0 127 a = true.
Proof. each_byte a; intros H; try discriminate H; split; reflexivity. Qed.

Lemma high_reserved (a : ascii) :
  between 0 127 a = false -> uriUnreserved a = false.
Proof.
  intros H. destruct (uriUnreserved a) eqn:E; [|reflexivity].
  apply unreserved_plain in E. destruct E. congruence.
Qed.

Lemma between_true (lo hi : N) (a : ascii) :
  between lo hi a = true <-> (lo <= byte a <= hi)%N.
Proof. unfold between. rewrite andb_true_iff, !N.leb_le. tauto. Qed.

Lemma between_false (lo hi : N) (a : ascii) :
  between lo hi a = false <-> (byte a < lo \/ hi < byte a)%N.
Proof. unfold between. rewrite andb_false_iff, !N.leb_gt. tauto. Qed.

Lemma cont_high (b : ascii) : cont b = true -> between 0 127 b = false.
Proof. unfold cont. rewrite between_true, between_false. lia. Qed.

Lemma second3_high (a b : ascii) : second3 a b = true -> between 0 127 b = false.
Proof.
  unfold second3. destruct (byte a =? 224)%N; [|destruct (byte a =? 237)%N];
    rewrite between_true, between_false; lia.
Qed.

Lemma second4_high (a b : ascii) : second4 a b = true -> between 0 127 b = false.
Proof.
  unfold second4. destruct (byte a =? 240)%N; [|destruct (byte a =? 244)%N];
    rewrite between_true, between_false; lia.
Qed.

Lemma encode_high (a : ascii) (s : string) :
  between 0 127 a = false ->
  encodeURIComponent (String a s) = (percentEncodeByte a ++ encodeURIComponent s)%string.
Proof. intros H. cbn [encodeURIComponent]. now rewrite (high_reserved a H). Qed.

Lemma percentEncodeByte_length (a : ascii) (t : string) :
  String.length (percentEncodeByte a ++ t) = 3 + String.length t.
Proof. reflexivity. Qed.

Lemma decodeAux_escape (fuel : nat) (a : ascii) (t : string) :
  decodeAux (S fuel) (percentEncodeByte a ++ t)
  = if between 0 127 a then option_map (String a) (decodeAux fuel t)
    else
      match announced a with
      | None => None
      | Some n =>
          match readEscapes (n - 1) t with
          | None => None
          | Some (bs, r2) =>
              if String.eqb (utf8Text (String a bs)) (String a bs)
              then option_map (String.append (String a bs)) (decodeAux fuel r2)
              else None
          end
      end.
Proof.
  change (percentEncodeByte a ++ t)%string
    with (String "%" (String (hexDigit (byte a / 16))
                        (String (hexDigit (byte a mod 16)) t))).
  cbn [decodeAux]. rewrite Ascii.eqb_refl.
  change (String "%" (String (hexDigit (byte a / 16))
                        (String (hexDigit (byte a mod 16)) t)))
    with (percentEncodeByte a ++ t)%string.
  now rewrite readEscape_encoded.
Qed.

Lemma wellFormed_sequence (s : string) :
  WellFormed s -> String.eqb (utf8Text s) s = true.
Proof. intros H. rewrite (utf8Text_fixes_well_formed s H). apply String.eqb_refl. Qed.

Lemma decode_encoded_bounded (s : string) :
  WellFormed s ->
  forall fuel, String.length (encodeURIComponent s) <= fuel ->
               decodeAux fuel (encodeURIComponent s) = Some s.
Proof.
  induction 1 as [|a t Ha _ IH|a b t Ha1 Ha2 Hb _ IH
                  |a b c t Ha1 Ha2 Ha3 Hb Hc _ IH
                  |a b c d t Ha1 Ha2 Ha3 Ha4 Hb Hc Hd _ IH]; intros fuel Hlen.
  - destruct fuel; reflexivity.
  - cbn [encodeURIComponent] in *. destruct (uriUnreserved a) eqn:Eu.
    + destruct (unreserved_plain a Eu) as [Hp _].
      destruct fuel as [|fuel]; [simpl in Hlen; lia|].
      change (str1 a ++ ?x)%string with (String a x) in *.
      cbn [decodeAux]. rewrite Hp, IH by (simpl in Hlen; lia). reflexivity.
    + destruct fuel as [|fuel]; [simpl in Hlen; lia|].
      rewrite decodeAux_escape, Ha, IH; [reflexivity|].
      rewrite percentEncodeByte_length in Hlen. lia.
  - pose proof (cont_high b Hb) as Hb'.
    rewrite (encode_high a) in * by assumption.
    rewrite (encode_high b) in * by assumption.
    destruct fuel as [|fuel]; [simpl in Hlen; lia|].
    rewrite decodeAux_escape, Ha1.
    assert (Han : announced a = Some 2).
    { unfold announced. apply between_true in Ha2.
      replace (between 192 223 a) with true; [reflexivity|].
      symmetry. apply between_true. lia. }
    rewrite Han. cbn [Nat.sub readEscapes]. rewrite readEscape_encoded.
    rewrite wellFormed_sequence
      by (apply WellFormed_2; try assumption; constructor).
    rewrite IH; [reflexivity|].
    rewrite !percentEncodeByte_length in Hlen. lia.
  - pose proof (second3_high a b Hb) as Hb'. pose proof (cont_high c Hc) as Hc'.
    rewrite (encode_high a) in * by assumption.
    rewrite (encode_high b) in * by assumption.
    rewrite (encode_high c) in * by assumption.
    destruct fuel as [|fuel]; [simpl in Hlen; lia|].
    rewrite decodeAux_escape, Ha1.
    assert (Han : announced a = Some 3).
    { unfold announced. apply between_true in Ha3.
      replace (between 192 223 a) with false
        by (symmetry; apply between_false; lia).
      replace (between 224 239 a) with true; [reflexivity|].
      symmetry. apply between_true. lia. }
    rewrite Han. cbn [Nat.sub readEscapes]. rewrite !readEscape_encoded.
    rewrite wellFormed_sequence
      by (apply WellFormed_3; try assumption; constructor).
    rewrite IH; [reflexivity|].
    rewrite !percentEncodeByte_length in Hlen. lia.
  - pose proof (second4_high a b Hb) as Hb'. pose proof (cont_high c Hc) as Hc'.
    pose proof (cont_high d Hd) as Hd'.
    rewrite (encode_high a) in * by assumption.
    rewrite (encode_high b) in * by assumption.
    rewrite (encode_high c) in * by assumption.
    rewrite (encode_high d) in * by assumption.
    destruct fuel as [|fuel]; [simpl in Hlen; lia|].
    rewrite decodeAux_escape, Ha1.
    assert (Han : announced a = Some 4).
    { unfold announced. apply between_true in Ha4.
      replace (between 192 223 a) with false
        by (symmetry; apply between_false; lia).
      replace (between 224 239 a) with false
        by (symmetry; apply between_false; lia).
      replace (between 240 247 a) with true; [reflexivity|].
      symmetry. apply between_true. lia. }
    rewrite Han. cbn [Nat.sub readEscapes]. rewrite !readEscape_encoded.
    rewrite wellFormed_sequence
      by (apply WellFormed_4; try assumption; constructor).
    rewrite IH; [reflexivity|].
    rewrite !percentEncodeByte_length in Hlen. lia.
Qed.

Lemma decode_encoded (s : string) :
  WellFormed s -> decodeURIComponent (encodeURIComponent s) = Some s.
Proof. intros H. apply decode_encoded_bounded; [assumption | lia]. Qed.

(** ** The redirect wrapper *)

Lemma encodeURIComponent_chars (s : string) :
  allChars (fun a => uriUnreserved a || Ascii.eqb a "%") (encodeURIComponent s) = true.
Proof.
  induction s as [|a s IH]; [reflexivity|].
  cbn [encodeURIComponent]. rewrite allChars_app, IH, andb_true_r.
  each_byte a; reflexivity.
Qed.

Lemma encodeURIComponent_truthy (s : string) :
  s <> EmptyString -> truthy (encodeURIComponent s) = true.
Proof.
  destruct s as [|a s]; [congruence|]. intros _. cbn [encodeURIComponent].
  destruct (uriUnreserved a); reflexivity.
Qed.

Lemma takeUntil_field (c : ascii) (cap rest : string) :
  includes (str1 c) cap = false ->
  rest = EmptyString \/ (exists r, rest = String c r) ->
  takeUntil c (cap ++ rest) = cap.
Proof.
  intros Hc Hrest. induction cap as [|a cap IH].
  - destruct Hrest as [->|[r ->]]; [reflexivity|]. simpl. now rewrite Ascii.eqb_refl.
  - rewrite includes_cons, orb_false_iff in Hc. destruct Hc as [Ha Hc].
    simpl. rewrite Ascii.eqb_sym, Ha, (IH Hc). reflexivity.
Qed.

(** No match of [uddg=] starts inside a text that holds no [=]. *)
Lemma no_match_before (z tail : string) :
  z <> EmptyString -> includes (str1 "=") z = false ->
  afterPrefix "uddg=" (z ++ String "u" (String "d" (String "d" (String "g" (String "=" tail)))))
  = None.
Proof.
  intros Hz He.
  destruct z as [|a [|b [|c [|d [|e z]]]]]; [congruence| | | | |];
    cbn [append afterPrefix];
    repeat match goal with
           | |- (if ?x then _ else _) = None => destruct x eqn:?; try reflexivity
           end.
  match goal with
  | H : Ascii.eqb _ e = true |- _ => apply Ascii.eqb_eq in H; subst e
  end.
  rewrite !includes_cons in He. rewrite Ascii.eqb_refl in He.
  now rewrite !orb_true_r in He.
Qed.

Lemma matchUddg_wrapped (pre cap rest : string) :
  includes (str1 "=") pre = false ->
  truthy cap = true -> includes (str1 "&") cap = false ->
  rest = EmptyString \/ (exists r, rest = String "&" r) ->
  matchUddg (pre ++ "uddg=" ++ cap ++ rest) = Some cap.
Proof.
  intros Hpre Hcap Hamp Hrest. induction pre as [|a pre IH].
  - simpl. rewrite takeUntil_field by assumption. now rewrite Hcap.
  - assert (Hno : afterPrefix "uddg=" (String a pre ++ "uddg=" ++ cap ++ rest) = None)
      by (apply no_match_before; [discriminate | assumption]).
    change (String a pre ++ ?x)%string with (String a (pre ++ x)) in *.
    cbn [matchUddg]. rewrite Hno.
    rewrite includes_cons, orb_false_iff in Hpre. now apply IH.
Qed.

(** X5.  When the first organic result is a redirect link whose [uddg]
    parameter holds the percent-encoded target (nothing before it holding
    an [=]), the fallback stores the decoded target, not the wrapper. *)
Theorem fallback_unwraps_redirect
  (answer : string -> SearchOutcome) (it : WishlistItem)
  (pre target rest : string) :
  nonAmazonLink it = EmptyString ->
  WellFormed target -> target <> EmptyString ->
  includes (str1 "=") pre = false ->
  rest = EmptyString \/ (exists r, rest = String "&" r) ->
  answer (duckUrl it)
  = Anchor (Some (pre ++ "uddg=" ++ encodeURIComponent target ++ rest)%string) ->
  resolveItem answer it = withNonAmazonLink it target.
Proof.
  intros Hempty Hwf Hne Hpre Hrest Hans. unfold resolveItem.
  rewrite Hempty, Hans. cbn [truthy].
  assert (Ht : truthy (pre ++ "uddg=" ++ encodeURIComponent target ++ rest) = true)
    by (destruct pre; reflexivity).
  rewrite Ht, matchUddg_wrapped; try assumption.
  - now rewrite decode_encoded.
  - now apply encodeURIComponent_truthy.
  - apply (allChars_excludes _ "&" _ eq_refl (encodeURIComponent_chars target)).
Qed.

(** X5 on a redirect link of the search engine. *)
Lemma fallback_unwraps_redirect_witness :
  resolveItem
    (fun _ => Anchor (Some "//duckduckgo.com/l/?uddg=https%3A%2F%2Fmaker.example%2Fdesk%20lamp&rut=abc"))
    (mkItem "Desk Lamp" EmptyString ["Black"] "https://www.amazon.com/dp/B000X?th=1"
            EmptyString)
  = mkItem "Desk Lamp" EmptyString ["Black"] "https://www.amazon.com/dp/B000X?th=1"
           "https://maker.example/desk lamp".
Proof.
  refine (fallback_unwraps_redirect
            (fun _ => Anchor (Some "//duckduckgo.com/l/?uddg=https%3A%2F%2Fmaker.example%2Fdesk%20lamp&rut=abc"))
            (mkItem "Desk Lamp" EmptyString ["Black"]
                    "https://www.amazon.com/dp/B000X?th=1" EmptyString)
            "//duckduckgo.com/l/?" "https://maker.example/desk lamp" "&rut=abc"
            eq_refl _ _ eq_refl (or_intror (ex_intro _ "rut=abc" eq_refl)) eq_refl).
  - repeat (apply WellFormed_1; [reflexivity|]). apply WellFormed_end.
  - discriminate.
Defined.

(** X6.  The search address is the fixed prefix and suffix around the
    encoded query; the encoded query holds no [&], [#], [+] or space, and
    decodes back to the item name followed by its options. *)
Theorem search_address_carries_query (it : WishlistItem) :
  let searchQuery := trim (itemName it ++ String " " (join " " (options it))) in
  exists q,
    duckUrl it
    = ("https://duckduckgo.com/?t=h_&q=official+site+" ++ q
       ++ "++-site%3Aamazon.*&t=h_&ia=web")%string
    /\ includes (str1 "&") q = false
    /\ includes (str1 "#") q = false
    /\ includes (str1 " ") q = false
    /\ includes (str1 "+") q = false
    /\ (WellFormed searchQuery -> decodeURIComponent q = Some searchQuery).
Proof.
  intros searchQuery. exists (encodeURIComponent searchQuery).
  split; [reflexivity|].
  pose proof (encodeURIComponent_chars searchQuery) as Hc.
  split; [apply (allChars_excludes _ "&" _ eq_refl Hc)|].
  split; [apply (allChars_excludes _ "#" _ eq_refl Hc)|].
  split; [apply (allChars_excludes _ " " _ eq_refl Hc)|].
  split; [apply (allChars_excludes _ "+" _ eq_refl Hc)|].
  apply decode_encoded.
Qed.
